(** * LinkedIn post preprocessing: a shallow embedding of [preprocess.py]

    The script enriches a JSON array of post records with metadata obtained
    from a language model, then rewrites every record's tags through a
    mapping obtained from a second model call.

    Python values are modelled by the JSON values they are decoded from,
    text by sequences of code points, dictionaries by insertion-ordered
    association lists, exceptions by an error result, [print] by a log of
    lines, and the model client by a function from the call number and the
    prompt to a completion or an exception.  A [set] is the sequence of its
    insertions together with an iteration order that is a parameter of the
    script; the properties that depend on it assume, on strings, that every
    inserted element is iterated once ([set_order]).  The decoder runs
    within the recursion limit and the integer digit limit of the
    interpreter ([interp]), which are parameters too.  Reading the raw file
    and dumping the result are the boundary: [process_posts] goes from the
    text of the file to the collection handed to [json.dump]. *)

From Stdlib Require Import List NArith ZArith Bool Lia String Ascii Permutation.
Import ListNotations.

Set Warnings "-register-all".

Local Open Scope N_scope.
Local Open Scope list_scope.

(** ** Text *)

(** A Python [str]: a sequence of Unicode code points. *)
Definition str := list N.

Fixpoint str_eqb (a b : str) : bool :=
  match a, b with
  | [], [] => true
  | x :: a', y :: b' => (x =? y) && str_eqb a' b'
  | _, _ => false
  end.

(** Code points the script and the JSON grammar name. *)
Definition ch (a : ascii) : N := N_of_ascii a.
Definition DQUOTE : N := 34.
Definition BACKSLASH : N := 92.
Definition LBRACE : N := 123.
Definition RBRACE : N := 125.
Definition LBRACKET : N := 91.
Definition RBRACKET : N := 93.
Definition COMMA : N := 44.
Definition COLON : N := 58.

(** Literals: [lit] reads a Rocq string as code points; [q] does the same
    and reads an apostrophe as the double quote, so that JSON texts can be
    written down. *)
Definition lit (s : string) : str := map N_of_ascii (list_ascii_of_string s).
Definition q (s : string) : str :=
  map (fun c => if c =? 39 then DQUOTE else c) (lit s).

(** [clean_text]: [text.encode("utf-8", "ignore").decode("utf-8")] drops the
    code points UTF-8 cannot encode, the surrogates U+D800..U+DFFF. *)
Definition is_surrogate (c : N) : bool := (55296 <=? c) && (c <=? 57343).
Definition clean_text (text : str) : str :=
  filter (fun c => negb (is_surrogate c)) text.

(** [str.strip()] removes the characters for which [str.isspace] holds. *)
Definition isspace (c : N) : bool :=
  ((9 <=? c) && (c <=? 13)) || ((28 <=? c) && (c <=? 32)) ||
  (c =? 133) || (c =? 160) || (c =? 5760) ||
  ((8192 <=? c) && (c <=? 8202)) || (c =? 8232) || (c =? 8233) ||
  (c =? 8239) || (c =? 8287) || (c =? 12288).

Fixpoint lstrip (s : str) : str :=
  match s with
  | c :: s' => if isspace c then lstrip s' else s
  | [] => []
  end.
Definition strip (s : str) : str := rev (lstrip (rev (lstrip s))).

(** [sep.join(items)] on strings. *)
Fixpoint join (sep : str) (items : list str) : str :=
  match items with
  | [] => []
  | [x] => x
  | x :: rest => x ++ sep ++ join sep rest
  end.

(** ** Values *)

(** What [json.loads] produces.  A number with a fraction or an exponent
    (and NaN, Infinity, -Infinity) is a Python float; it is kept as its
    lexeme. *)
Inductive json : Type :=
| JNull
| JBool (b : bool)
| JInt (z : Z)
| JFloat (lexeme : str)
| JString (s : str)
| JArray (items : list json)
| JObject (fields : list (str * json)).

Definition dict := list (str * json).

Definition is_dict (v : json) : bool :=
  match v with JObject _ => true | _ => false end.
Definition is_str (v : json) : bool :=
  match v with JString _ => true | _ => false end.
(** Python sequences among decoded values: [list] and [str]. *)
Definition is_sequence (v : json) : bool :=
  match v with JArray _ | JString _ => true | _ => false end.
(** Lists and dicts are unhashable. *)
Definition hashable (v : json) : bool :=
  match v with JArray _ | JObject _ => false | _ => true end.

(** ** Dictionaries: insertion-ordered, one entry per key *)

Fixpoint dict_lookup (k : str) (d : dict) : option json :=
  match d with
  | [] => None
  | (k', v) :: d' => if str_eqb k k' then Some v else dict_lookup k d'
  end.

(** [d[k] = v]: overwrite in place, or append a new entry. *)
Fixpoint dict_set (d : dict) (k : str) (v : json) : dict :=
  match d with
  | [] => [(k, v)]
  | (k', v') :: d' =>
      if str_eqb k k' then (k', v) :: d' else (k', v') :: dict_set d' k v
  end.

(** [dict(pairs)] *)
Definition dict_of_pairs (pairs : list (str * json)) : dict :=
  fold_left (fun d kv => dict_set d (fst kv) (snd kv)) pairs [].

(** [{**a, **b}] *)
Definition dict_merge (a b : dict) : dict :=
  fold_left (fun d kv => dict_set d (fst kv) (snd kv)) b a.

Definition dict_keys (d : dict) : list str := map fst d.
Definition has_key (k : str) (d : dict) : bool :=
  match dict_lookup k d with Some _ => true | None => false end.

(** ** [json.loads]

    The decoder follows CPython's [json.decoder] and [json.scanner]: a
    recursive descent over the text, within the recursion limit and the
    digit limit of [int] of the interpreter ([interp]).  The script's own
    calls are taken to find the room they need. *)

(** [WHITESPACE = re.compile(r'[ \t\n\r]*')] *)
Definition is_ws (c : N) : bool :=
  (c =? 32) || (c =? 9) || (c =? 10) || (c =? 13).
Fixpoint skip_ws (s : str) : str :=
  match s with
  | c :: s' => if is_ws c then skip_ws s' else s
  | [] => []
  end.

Fixpoint starts_with (p s : str) : bool :=
  match p, s with
  | [], _ => true
  | x :: p', y :: s' => (x =? y) && starts_with p' s'
  | _ :: _, [] => false
  end.

(** *** Strings *)

Definition hexval (c : N) : option N :=
  if (48 <=? c) && (c <=? 57) then Some (c - 48)
  else if (65 <=? c) && (c <=? 70) then Some (c - 55)
  else if (97 <=? c) && (c <=? 102) then Some (c - 87)
  else None.

(** [_decode_uXXXX]: four hexadecimal digits. *)
Definition hex4 (a b c d : N) : option N :=
  match hexval a, hexval b, hexval c, hexval d with
  | Some x, Some y, Some z, Some w => Some (((x * 16 + y) * 16 + z) * 16 + w)
  | _, _, _, _ => None
  end.

Definition high_surrogate (u : N) : bool := (55296 <=? u) && (u <=? 56319).
Definition low_surrogate (u : N) : bool := (56320 <=? u) && (u <=? 57343).
Definition join_surrogates (hi lo : N) : N :=
  65536 + N.lor (N.shiftl (hi - 55296) 10) (lo - 56320).

(** The [BACKSLASH] table of [json.decoder]. *)
Definition unescape (e : N) : option N :=
  if e =? DQUOTE then Some DQUOTE
  else if e =? BACKSLASH then Some BACKSLASH
  else if e =? ch "/" then Some (ch "/")
  else if e =? ch "b" then Some 8
  else if e =? ch "f" then Some 12
  else if e =? ch "n" then Some 10
  else if e =? ch "r" then Some 13
  else if e =? ch "t" then Some 9
  else None.

Definition cons_char (c : N) (r : option (str * str)) : option (str * str) :=
  match r with
  | Some (k, rest) => Some (c :: k, rest)
  | None => None
  end.

(** [scanstring(s, end, strict=True)], started after the opening quote:
    the decoded string and the text after the closing quote, or [None]
    where the decoder raises (unterminated string, control character,
    invalid escape).  A high surrogate escape directly followed by a low
    surrogate escape is one code point; followed by anything else it stands
    alone and the scan goes on from there, which fails as the decoder does
    when what follows is a malformed [\u] escape. *)
Fixpoint scanstring (s : str) : option (str * str) :=
  match s with
  | [] => None
  | c :: s1 =>
      if c =? DQUOTE then Some ([], s1)
      else if c <? 32 then None
      else if c =? BACKSLASH then
        match s1 with
        | [] => None
        | e :: s2 =>
            if e =? ch "u" then
              match s2 with
              | a :: b :: c' :: d :: s3 =>
                  match hex4 a b c' d with
                  | None => None
                  | Some uni =>
                      if high_surrogate uni then
                        match s3 with
                        | b1 :: u1 :: a2 :: b2 :: c2 :: d2 :: s4 =>
                            if (b1 =? BACKSLASH) && (u1 =? ch "u") then
                              match hex4 a2 b2 c2 d2 with
                              | None => None
                              | Some uni2 =>
                                  if low_surrogate uni2
                                  then cons_char (join_surrogates uni uni2)
                                                 (scanstring s4)
                                  else cons_char uni (scanstring s3)
                              end
                            else cons_char uni (scanstring s3)
                        | _ => cons_char uni (scanstring s3)
                        end
                      else cons_char uni (scanstring s3)
                  end
              | _ => None
              end
            else
              match unescape e with
              | Some c' => cons_char c' (scanstring s2)
              | None => None
              end
        end
      else cons_char c (scanstring s1)
  end.

(** *** Numbers

    [NUMBER_RE]: an optional minus sign, then a zero or a non-zero digit
    followed by digits; optionally a point and at least one digit;
    optionally [e] or [E], an optional sign and at least one digit. *)

Definition is_digit (c : N) : bool := (48 <=? c) && (c <=? 57).

Fixpoint span_digits (s : str) : str * str :=
  match s with
  | c :: s' =>
      if is_digit c
      then let (d, r) := span_digits s' in (c :: d, r)
      else ([], s)
  | [] => ([], [])
  end.

Definition digits_value (ds : str) : Z :=
  fold_left (fun acc c => (acc * 10 + Z.of_N (c - 48))%Z) ds 0%Z.

(** The integer group: its sign, its digits and the rest of the text. *)
Definition match_integer (s : str) : option (bool * str * str) :=
  let (neg, s1) :=
    match s with
    | c :: s' => if c =? ch "-" then (true, s') else (false, s)
    | [] => (false, s)
    end in
  match s1 with
  | c :: s2 =>
      if c =? ch "0" then Some (neg, [c], s2)
      else if is_digit c
      then let (d, r) := span_digits s2 in Some (neg, c :: d, r)
      else None
  | [] => None
  end.

Definition match_frac (s : str) : str * str :=
  match s with
  | c :: s1 =>
      if c =? ch "." then
        match span_digits s1 with
        | ([], _) => ([], s)
        | (d, r) => (c :: d, r)
        end
      else ([], s)
  | [] => ([], s)
  end.

Definition match_exp (s : str) : str * str :=
  match s with
  | c :: s1 =>
      if (c =? ch "e") || (c =? ch "E") then
        let (sign, s2) :=
          match s1 with
          | c2 :: s2' =>
              if (c2 =? ch "-") || (c2 =? ch "+") then ([c2], s2') else ([], s1)
          | [] => ([], s1)
          end in
        match span_digits s2 with
        | ([], _) => ([], s)
        | (d, r) => (c :: sign ++ d, r)
        end
      else ([], s)
  | [] => ([], s)
  end.

(** What [NUMBER_RE] matched: an integer, its sign and digits, or a float,
    its lexeme. *)
Inductive number : Type :=
| Integer (neg : bool) (digits : str)
| Float (lexeme : str).

(** [match_number]: an integer without fraction and exponent, a float
    otherwise. *)
Definition match_number (s : str) : option (number * str) :=
  match match_integer s with
  | None => None
  | Some (neg, ds, r) =>
      let (frac, r1) := match_frac r in
      let (exp, r2) := match_exp r1 in
      match frac, exp with
      | [], [] => Some (Integer neg ds, r2)
      | _, _ =>
          Some (Float ((if neg then [ch "-"] else []) ++ ds ++ frac ++ exp), r2)
      end
  end.

(** The limits of the interpreter at a call of the decoder: how many
    containers may still be nested before the recursion limit is reached;
    how many units of that room the construction of a [JSONDecodeError]
    takes (3 in CPython 3.11); and [sys.get_int_max_str_digits()] (0: no
    limit). *)
Record interp : Type := Interp {
  recursion_room : nat;
  error_room : nat;
  int_max_str_digits : nat
}.

(** [int(integer)]: a [ValueError] ([None]) when the digits, more than the
    threshold of 640, exceed the limit. *)
Definition int_of_digits (max_digits : nat) (neg : bool) (ds : str)
  : option json :=
  if ((0 <? max_digits) && (max_digits <? List.length ds) &&
      (640 <? List.length ds))%nat
  then None
  else Some (JInt (if neg then (- digits_value ds)%Z else digits_value ds)).

(** *** Values, arrays and objects *)

(** Why a scan stops short of a value: no value starts here (the scanner's
    [StopIteration]); the text is malformed (a [JSONDecodeError] built by the
    scanner's [raise_errmsg]); the recursion limit is reached; an integer
    has too many digits; or the step counter of this embedding ran out. *)
Inductive stop : Type :=
| ExpectingValue
| Malformed
| TooDeep
| TooManyDigits
| NoFuel.

Inductive scan (A : Type) : Type :=
| Scanned (a : A) (rest : str)
| Stop (why : stop).
Arguments Scanned {A} a rest.
Arguments Stop {A} why.

(** [raise_errmsg], with [room] units left: building the [JSONDecodeError]
    takes [need] of them; with fewer the call ends in a [RecursionError]. *)
Definition errmsg (room need : nat) : stop :=
  if (room <? need)%nat then TooDeep else Malformed.

(** [scan_once] ([c_make_scanner] of CPython 3.11), with [JSONArray] and
    [JSONObject]: [array_items] starts at the first value of a non-empty
    array, [object_items] after the opening quote of a key.  Entering a
    container takes one unit of [room] ([Py_EnterRecursiveCall]), given
    back when the container is closed; what is inside is scanned with the
    room that is left.  Every call spends one unit of [fuel], the step
    counter. *)
Fixpoint scan_once (fuel : nat) (room need max_digits : nat) (s : str)
  : scan json :=
  match fuel with
  | O => Stop NoFuel
  | S n =>
      match s with
      | [] => Stop ExpectingValue
      | c :: s1 =>
          if c =? DQUOTE then
            match scanstring s1 with
            | Some (k, r) => Scanned (JString k) r
            | None => Stop (errmsg room need)
            end
          else if c =? LBRACE then
            match room with
            | O => Stop TooDeep
            | S room' =>
                match skip_ws s1 with
                | c1 :: r1 =>
                    if c1 =? RBRACE then Scanned (JObject []) r1
                    else if c1 =? DQUOTE then
                      match object_items n room' need max_digits r1 with
                      | Scanned pairs r =>
                          Scanned (JObject (dict_of_pairs pairs)) r
                      | Stop why => Stop why
                      end
                    else Stop (errmsg room' need)
                | [] => Stop (errmsg room' need)
                end
            end
          else if c =? LBRACKET then
            match room with
            | O => Stop TooDeep
            | S room' =>
                match skip_ws s1 with
                | c1 :: r1 =>
                    if c1 =? RBRACKET then Scanned (JArray []) r1
                    else
                      match array_items n room' need max_digits (c1 :: r1) with
                      | Scanned values r => Scanned (JArray values) r
                      | Stop why => Stop why
                      end
                | [] => Stop ExpectingValue
                end
            end
          else if starts_with (lit "null") s then Scanned JNull (skipn 4 s)
          else if starts_with (lit "true") s then Scanned (JBool true) (skipn 4 s)
          else if starts_with (lit "false") s then Scanned (JBool false) (skipn 5 s)
          else
            match match_number s with
            | Some (Integer neg ds, r) =>
                match int_of_digits max_digits neg ds with
                | Some v => Scanned v r
                | None => Stop TooManyDigits
                end
            | Some (Float lexeme, r) => Scanned (JFloat lexeme) r
            | None =>
                if starts_with (lit "NaN") s
                then Scanned (JFloat (lit "NaN")) (skipn 3 s)
                else if starts_with (lit "Infinity") s
                then Scanned (JFloat (lit "Infinity")) (skipn 8 s)
                else if starts_with (lit "-Infinity") s
                then Scanned (JFloat (lit "-Infinity")) (skipn 9 s)
                else Stop ExpectingValue
            end
      end
  end

with array_items (fuel : nat) (room need max_digits : nat) (s : str)
  : scan (list json) :=
  match fuel with
  | O => Stop NoFuel
  | S n =>
      match scan_once n room need max_digits s with
      | Scanned v r =>
          match skip_ws r with
          | c :: r1 =>
              if c =? RBRACKET then Scanned [v] r1
              else if c =? COMMA then
                match array_items n room need max_digits (skip_ws r1) with
                | Scanned values r2 => Scanned (v :: values) r2
                | Stop why => Stop why
                end
              else Stop (errmsg room need)
          | [] => Stop (errmsg room need)
          end
      | Stop why => Stop why
      end
  end

with object_items (fuel : nat) (room need max_digits : nat) (s : str)
  : scan (list (str * json)) :=
  match fuel with
  | O => Stop NoFuel
  | S n =>
      match scanstring s with
      | None => Stop (errmsg room need)
      | Some (key, r) =>
          match skip_ws r with
          | c :: r1 =>
              if c =? COLON then
                match scan_once n room need max_digits (skip_ws r1) with
                | Scanned v r2 =>
                    match skip_ws r2 with
                    | c2 :: r3 =>
                        if c2 =? RBRACE then Scanned [(key, v)] r3
                        else if c2 =? COMMA then
                          match skip_ws r3 with
                          | c3 :: r4 =>
                              if c3 =? DQUOTE then
                                match object_items n room need max_digits r4 with
                                | Scanned pairs r5 =>
                                    Scanned ((key, v) :: pairs) r5
                                | Stop why => Stop why
                                end
                              else Stop (errmsg room need)
                          | [] => Stop (errmsg room need)
                          end
                        else Stop (errmsg room need)
                    | [] => Stop (errmsg room need)
                    end
                | Stop why => Stop why
                end
              else Stop (errmsg room need)
          | [] => Stop (errmsg room need)
          end
      end
  end.

(** ** Exceptions and results *)

Inductive exn : Type :=
| JSONDecodeError
| OutputParserException (msg : string)
| KeyError
| TypeError
| AttributeError
| RecursionError
| ValueError
| ClientError (code : nat).   (* anything else the model client raises *)

Inductive result (A : Type) : Type :=
| Ok (a : A)
| Raise (e : exn).
Arguments Ok {A} a.
Arguments Raise {A} e.

(** Steps that always suffice for a text (lemma [scan_fuel]): the step
    counter is a device of the embedding and never runs out; the recursion
    limit of the interpreter is the [recursion_room]. *)
Definition fuel_for (s : str) : nat := 2 * List.length s + 1.

(** A [JSONDecodeError] raised by the Python code of the decoder, [frames]
    frames above the scanner: the exception is built with the room of the
    scanner and those frames. *)
Definition decode_error (py : interp) (frames : nat) : exn :=
  if (recursion_room py + frames <? error_room py)%nat
  then RecursionError else JSONDecodeError.

Definition stop_exn (py : interp) (why : stop) : exn :=
  match why with
  | ExpectingValue => decode_error py 1     (* built in [raw_decode] *)
  | Malformed => JSONDecodeError
  | TooDeep => RecursionError
  | TooManyDigits => ValueError
  | NoFuel => RecursionError                (* never: lemma [scan_fuel] *)
  end.

(** [json.loads(s)] for a [str], in an interpreter with the limits [py]: no
    byte order mark, leading white space, one value, trailing white space,
    end of text.  A malformed text raises [JSONDecodeError]; nesting beyond
    the room left raises [RecursionError], and so does an error met where
    too little room is left to build the [JSONDecodeError]; an integer
    beyond the digit limit raises [ValueError].  The scan stops at the
    first of these it meets. *)
Definition json_loads (py : interp) (s : str) : result json :=
  if starts_with [65279] s then Raise (decode_error py 3)
  else
    match scan_once (fuel_for s) (recursion_room py) (error_room py)
                    (int_max_str_digits py) (skip_ws s) with
    | Scanned v r =>
        match skip_ws r with
        | [] => Ok v
        | _ :: _ => Raise (decode_error py 2)
        end
    | Stop why => Raise (stop_exn py why)
    end.

(** ** [re.search(r"\{.*\}", text, re.DOTALL)] *)

(** The tail of the pattern, a greedy [.*] followed by a closing brace,
    matched at the start of [s]: the longest prefix of [s] that ends with a
    closing brace.  With [re.DOTALL] the dot matches every character. *)
Fixpoint greedy_to_close (s : str) : option str :=
  match s with
  | [] => None
  | c :: s' =>
      match greedy_to_close s' with
      | Some m => Some (c :: m)
      | None => if c =? RBRACE then Some [c] else None
      end
  end.

(** The search: the leftmost position where the pattern matches, that is
    an opening brace after which the tail matches; [match.group(0)]. *)
Fixpoint re_search (text : str) : option str :=
  match text with
  | [] => None
  | c :: rest =>
      if c =? LBRACE then
        match greedy_to_close rest with
        | Some m => Some (c :: m)
        | None => re_search rest
        end
      else re_search rest
  end.

(** ** Effects: the model client and standard output *)

(** The lines the script prints. *)
Inductive line : Type :=
| JSON_Parsing_Error
| Warning_Unexpected_metadata_format (res : json)
| Output_parsing_failed (e : exn)
| Warning_metadata_is_not_a_dictionary (metadata : json).

Record world : Type := World { calls : nat; stdout : list line }.

Definition M (A : Type) : Type := world -> result A * world.

Definition ret {A} (a : A) : M A := fun w => (Ok a, w).
Definition raise {A} (e : exn) : M A := fun w => (Raise e, w).
Definition bind {A B} (m : M A) (k : A -> M B) : M B :=
  fun w =>
    match m w with
    | (Ok a, w') => k a w'
    | (Raise e, w') => (Raise e, w')
    end.
Definition lift {A} (r : result A) : M A := fun w => (r, w).
Definition print (l : line) : M unit :=
  fun w => (Ok tt, World (calls w) (stdout w ++ [l])).
(** [try: m  except ...: h e]; a handler re-raises what it does not catch. *)
Definition try_except {A} (m : M A) (h : exn -> M A) : M A :=
  fun w =>
    match m w with
    | (Ok a, w') => (Ok a, w')
    | (Raise e, w') => h e w'
    end.

Notation "x <- m ;; k" := (bind m (fun x => k))
  (at level 61, m at next level, right associativity).
Notation "m ;;; k" := (bind m (fun _ => k))
  (at level 61, right associativity).

Fixpoint mapM {A B} (f : A -> M B) (xs : list A) : M (list B) :=
  match xs with
  | [] => ret []
  | x :: xs' => y <- f x ;; ys <- mapM f xs' ;; ret (y :: ys)
  end.

(** ** Operations on Python values *)

(** [for x in v] *)
Definition py_iter (v : json) : result (list json) :=
  match v with
  | JArray items => Ok items
  | JString s => Ok (map (fun c => JString [c]) s)
  | JObject d => Ok (map JString (dict_keys d))
  | _ => Raise TypeError
  end.

(** [v[k]] with a string key *)
Definition py_getitem (v : json) (k : str) : result json :=
  match v with
  | JObject d =>
      match dict_lookup k d with
      | Some x => Ok x
      | None => Raise KeyError
      end
  | _ => Raise TypeError
  end.

(** [v.get(k, default)] with a string key *)
Definition py_get (v : json) (k : str) (default : json) : result json :=
  match v with
  | JObject d =>
      match dict_lookup k d with
      | Some x => Ok x
      | None => Ok default
      end
  | _ => Raise AttributeError
  end.

(** [v.get(key, default)] with any key: an unhashable key is a [TypeError],
    a key that is not a string is never found among string keys. *)
Definition py_get_any (v : json) (key default : json) : result json :=
  match v with
  | JObject d =>
      match key with
      | JString k =>
          match dict_lookup k d with
          | Some x => Ok x
          | None => Ok default
          end
      | _ => if hashable key then Ok default else Raise TypeError
      end
  | _ => Raise AttributeError
  end.

(** [v[k] = x] with a string key, on the dict the script holds *)
Definition py_setitem (v : json) (k : str) (x : json) : result json :=
  match v with
  | JObject d => Ok (JObject (dict_set d k x))
  | _ => Raise TypeError
  end.

(** [{**a, **b}] on values *)
Definition py_merge (a b : json) : result json :=
  match a, b with
  | JObject x, JObject y => Ok (JObject (dict_merge x y))
  | _, _ => Raise TypeError
  end.

(** [clean_text] on a value: only [str] has [encode]. *)
Definition py_clean_text (v : json) : result str :=
  match v with
  | JString s => Ok (clean_text s)
  | _ => Raise AttributeError
  end.

(** [sep.join(xs)]: every item must be a [str]. *)
Fixpoint strings_of (xs : list json) : result (list str) :=
  match xs with
  | [] => Ok []
  | JString s :: xs' =>
      match strings_of xs' with
      | Ok ss => Ok (s :: ss)
      | Raise e => Raise e
      end
  | _ :: _ => Raise TypeError
  end.
Definition py_join (sep : str) (xs : list json) : result str :=
  match strings_of xs with
  | Ok ss => Ok (join sep ss)
  | Raise e => Raise e
  end.

(** ** The prompts

    The two templates, cut at their placeholder.  The first holds double
    quotes and no apostrophe, and is written with [q]. *)

Definition tags_template_head : str := q
"I will give you a list of tags. You need to unify tags with the following requirements,
    1. Tags are unified and merged to create a shorter list. 
       Example 1: 'Jobseekers', 'Job Hunting' can be all merged into a single tag 'Job Search'. 
       Example 2: 'Motivation', 'Inspiration', 'Drive' can be mapped to 'Motivation'
       Example 3: 'Personal Growth', 'Personal Development', 'Self Improvement' can be mapped to 'Self Improvement'
       Example 4: 'Scam Alert', 'Job Scam' etc. can be mapped to 'Scams'
    2. Each tag should follow the title case convention. Example: 'Motivation', 'Job Search'
    3. **Only output a valid JSON object**. Do not include any extra text or explanation.
    4. Output should have a mapping of the original tag and the unified tag. 

    Here is the list of tags: 
    ".
Definition tags_template_tail : str := lit
"
    ".
Definition tags_prompt (tags : str) : str :=
  tags_template_head ++ tags ++ tags_template_tail.

Definition post_template_head : str := lit
"
        You are given a LinkedIn post. Extract number of lines, language, and tags.
        1. Respond with **ONLY** a valid JSON object. No extra text, no preamble.
        2. JSON keys: line_count (int), language (English/Hinglish), tags (array of max 2).

        Post: ".
Definition post_template_tail : str := lit
"
    ".
Definition post_prompt (post : str) : str :=
  post_template_head ++ post ++ post_template_tail.

(** ** The script *)

Section Script.

(** The limits of the interpreter at [json.load] of the raw file, and at
    the calls of [json.loads] inside [extract_json]. *)
Variable py_load : interp.
Variable py : interp.

(** The model client [llm]: the completion it returns, or the exception
    it raises, at the given call number for the given prompt. *)
Variable llm : nat -> str -> result str.

(** The order in which a [set] built by the given insertions is iterated.
    It depends on the process's hash seed and is left open. *)
Variable set_iter : list json -> list json.

(** [chain.invoke(...)] followed by [response.content] *)
Definition invoke (prompt : str) : M str :=
  fun w => (llm (calls w) prompt, World (S (calls w)) (stdout w)).

(** [extract_json(text)] *)
Definition extract_json (text : str) : M json :=
  match re_search text with
  | Some m =>
      try_except (lift (json_loads py m))
        (fun e =>
           match e with
           | JSONDecodeError => print JSON_Parsing_Error ;;; ret (JObject [])
           | _ => raise e
           end)
  | None => ret (JObject [])
  end.

(** [unique_tags.update(post['tags'])] for every post, on the insertions
    made so far. *)
Fixpoint collect_tags (posts : list json) (inserted : list json)
  : result (list json) :=
  match posts with
  | [] => Ok inserted
  | post :: posts' =>
      match py_getitem post (lit "tags") with
      | Raise e => Raise e
      | Ok tags =>
          match py_iter tags with
          | Raise e => Raise e
          | Ok xs =>
              if forallb hashable xs
              then collect_tags posts' (inserted ++ xs)
              else Raise TypeError
          end
      end
  end.

(** [get_unified_tags(posts_with_metadata)] *)
Definition get_unified_tags (posts_with_metadata : list json) : M json :=
  unique_tags <- lift (collect_tags posts_with_metadata []) ;;
  unique_tags_list <- lift (py_join [COMMA] (set_iter unique_tags)) ;;
  response <- invoke (tags_prompt unique_tags_list) ;;
  try_except (extract_json response)
    (fun e =>
       match e with
       | OutputParserException _ =>
           raise (OutputParserException "Context too big. Unable to parse jobs.")
       | _ => raise e
       end).

Definition fallback_metadata : json :=
  JObject [(lit "line_count", JInt 0);
           (lit "language", JString (lit "Unknown"));
           (lit "tags", JArray [])].

(** [extract_metadata(post)] *)
Definition extract_metadata (post : str) : M json :=
  let post := clean_text post in
  try_except
    (response <- invoke (post_prompt post) ;;
     res <- extract_json (strip response) ;;
     if is_dict res then ret res
     else print (Warning_Unexpected_metadata_format res) ;;;
          ret fallback_metadata)
    (fun e =>
       match e with
       | OutputParserException _ | JSONDecodeError =>
           print (Output_parsing_failed e) ;;; ret fallback_metadata
       | _ => raise e
       end).

(** The body of the first loop of [process_posts], for one [post]. *)
Definition enrich_post (post : json) : M json :=
  text <- lift (py_get post (lit "text") (JString [])) ;;
  text <- lift (py_clean_text text) ;;
  post <- lift (py_setitem post (lit "text") (JString text)) ;;
  metadata <- extract_metadata text ;;
  post_with_metadata <-
    (if is_dict metadata then lift (py_merge post metadata)
     else print (Warning_metadata_is_not_a_dictionary metadata) ;;;
          ret post) ;;
  tags <- lift (py_get post_with_metadata (lit "tags") (JArray [])) ;;
  lift (py_setitem post_with_metadata (lit "tags") tags).

(** The first loop: the enriched collection. *)
Definition enrich_posts (posts : json) : M (list json) :=
  posts <- lift (py_iter posts) ;;
  mapM enrich_post posts.

(** [{unified_tags.get(tag, tag) for tag in current_tags}]: the
    insertions into the new set. *)
Fixpoint map_tags (unified_tags : json) (current_tags : list json)
  : result (list json) :=
  match current_tags with
  | [] => Ok []
  | tag :: rest =>
      match py_get_any unified_tags tag tag with
      | Raise e => Raise e
      | Ok t =>
          if hashable t then
            match map_tags unified_tags rest with
            | Ok ts => Ok (t :: ts)
            | Raise e => Raise e
            end
          else Raise TypeError
      end
  end.

(** The body of the second loop of [process_posts], for one [post]. *)
Definition rewrite_tags (unified_tags : json) (post : json) : result json :=
  match py_getitem post (lit "tags") with
  | Raise e => Raise e
  | Ok current_tags =>
      match py_iter current_tags with
      | Raise e => Raise e
      | Ok tags =>
          match map_tags unified_tags tags with
          | Raise e => Raise e
          | Ok new_tags =>
              py_setitem post (lit "tags") (JArray (set_iter new_tags))
          end
      end
  end.

(** [process_posts], from the text of the raw file to the collection that
    is handed to [json.dump]. *)
Definition process_posts (raw : str) : M (list json) :=
  posts <- lift (json_loads py_load raw) ;;
  enriched_posts <- enrich_posts posts ;;
  unified_tags <- get_unified_tags enriched_posts ;;
  mapM (fun post => lift (rewrite_tags unified_tags post)) enriched_posts.

End Script.

(** An interpreter for examples: CPython 3.11 with its default limits
    (recursion limit 1000, 4300 digits), a few frames deep. *)
Definition cpython : interp := Interp 990 3 4300.

(** A start of a run: no call made, nothing printed. *)
Definition w0 : world := World 0 [].

(** A client for examples: [first] at call 0, [second] afterwards. *)
Definition stub (first second : result str) : nat -> str -> result str :=
  fun n _ => match n with O => first | S _ => second end.

(** An iteration order for examples: first insertion first. *)
Definition json_eqb (a b : json) : bool :=
  match a, b with
  | JNull, JNull => true
  | JBool x, JBool y => Bool.eqb x y
  | JInt x, JInt y => (x =? y)%Z
  | JFloat x, JFloat y => str_eqb x y
  | JString x, JString y => str_eqb x y
  | _, _ => false
  end.
Fixpoint first_seen (xs : list json) : list json :=
  match xs with
  | [] => []
  | x :: xs' => x :: filter (fun y => negb (json_eqb x y)) (first_seen xs')
  end.

(** What the iteration order of a set is known to satisfy: on strings, no
    element twice and exactly the inserted elements. *)
Definition set_order (set_iter : list json -> list json) : Prop :=
  forall xs, forallb is_str xs = true ->
    NoDup (set_iter xs) /\ (forall x, In x (set_iter xs) <-> In x xs).

(** The rewriting of one tag as the specification words it: [mapping[t]]
    when [t] is a key of the mapping, [t] itself otherwise. *)
Definition tag_through (mapping : dict) (t : json) : json :=
  match t with
  | JString k =>
      match dict_lookup k mapping with
      | Some v => v
      | None => t
      end
  | _ => t
  end.

(** ** Vocabulary of the properties *)

(** The exceptions the handler of [extract_metadata] catches. *)
Definition is_parsing_exn (e : exn) : bool :=
  match e with
  | OutputParserException _ | JSONDecodeError => true
  | _ => false
  end.

(** The exceptions of the decoder that no handler of the script catches:
    the interpreter's limits. *)
Definition is_limit_exn (e : exn) : bool :=
  match e with
  | RecursionError | ValueError => true
  | _ => false
  end.

(** The stops of the scanner that are limits of the interpreter. *)
Definition is_limit_stop (why : stop) : bool :=
  match why with
  | TooDeep | TooManyDigits => true
  | _ => false
  end.

(** A response for examples: an object whose value opens 3000 arrays and
    closes none.  No part of it is JSON, and it is nested beyond the
    recursion limit. *)
Definition nested_text : str :=
  LBRACE :: (q "'a':" ++ repeat LBRACKET 3000) ++ [RBRACE].

(** The warning of the non-mapping branch of [extract_metadata]. *)
Definition is_format_warning (l : line) : bool :=
  match l with
  | Warning_Unexpected_metadata_format _ => true
  | _ => false
  end.

(** The tags observed in a collection: what the first loop of
    [get_unified_tags] inserts into [unique_tags]. *)
Definition observed_tags (posts : list json) : list json :=
  match collect_tags posts [] with
  | Ok tags => tags
  | Raise _ => []
  end.

(** The mapping and the record of the specification's example. *)
Definition job_mapping : dict :=
  [(lit "Job Search", JString (lit "Job Search"));
   (lit "Hiring", JString (lit "Job Search"))].

Definition job_record (tags : list json) : json :=
  JObject [(lit "text", JString (lit "Looking for a new job! #JobSearch #Hiring"));
           (lit "line_count", JInt 1);
           (lit "language", JString (lit "English"));
           (lit "tags", JArray tags)].

(** A tag that is a non-empty string. *)
Definition nonempty_tag (t : json) : bool :=
  match t with
  | JString (_ :: _) => true
  | _ => false
  end.

(** The text of a record as the first loop reads and cleans it. *)
Definition post_text (p : dict) : result str :=
  match dict_lookup (lit "text") p with
  | Some (JString s) => Ok (clean_text s)
  | Some _ => Raise AttributeError
  | None => Ok (clean_text [])
  end.

(** The [tags] field after enrichment: the metadata's, else the record's
    own, else the empty list. *)
Definition enriched_tags (p md : dict) : json :=
  match dict_lookup (lit "tags") md with
  | Some t => t
  | None =>
      match dict_lookup (lit "tags") p with
      | Some t => t
      | None => JArray []
      end
  end.

(** The enriched record: the record with its cleaned text, the metadata
    merged over it, and the [tags] field. *)
Definition enriched (p : dict) (text : str) (md : dict) : json :=
  JObject (dict_set (dict_merge (dict_set p (lit "text") (JString text)) md)
                    (lit "tags") (enriched_tags p md)).

(** A client that fails only with parsing exceptions. *)
Definition only_parsing_failures (llm : nat -> str -> result str) : Prop :=
  forall n prompt e, llm n prompt = Raise e -> is_parsing_exn e = true.

(** On the answers of the client the decoder stops at no limit of the
    interpreter: it decodes the candidate or rejects it as malformed. *)
Definition answers_within_limits
    (py : interp) (llm : nat -> str -> result str) : Prop :=
  forall n prompt content m e,
    llm n prompt = Ok content ->
    re_search (strip content) = Some m ->
    json_loads py m = Raise e ->
    e = JSONDecodeError.

(** A record the first loop can read: a dictionary whose [text], if any,
    is a string. *)
Definition readable_post (post : json) : Prop :=
  exists p text, post = JObject p /\ post_text p = Ok text.

(** A record that is a mapping with a [tags] field. *)
Definition has_tags_field (r : json) : Prop :=
  exists d t, r = JObject d /\ dict_lookup (lit "tags") d = Some t.

(** The tags one record contributes to [unique_tags]: [post['tags']],
    iterated, every element hashed. *)
Definition post_tags (post : json) : result (list json) :=
  match py_getitem post (lit "tags") with
  | Raise e => Raise e
  | Ok tags =>
      match py_iter tags with
      | Raise e => Raise e
      | Ok xs => if forallb hashable xs then Ok xs else Raise TypeError
      end
  end.

(** Every field name of [p] is a field name of [d]. *)
Definition keeps_fields (p d : dict) : Prop :=
  forall k, has_key k p = true -> has_key k d = true.

(** A record that is a mapping whose [tags] field is a list. *)
Definition has_tag_list (r : json) : Prop :=
  exists d ts, r = JObject d /\ dict_lookup (lit "tags") d = Some (JArray ts).

(** The text has an opening brace with a closing brace somewhere after. *)
Definition brace_pair (text : str) : Prop :=
  exists pre mid suf, text = pre ++ LBRACE :: mid ++ RBRACE :: suf.

(** * Properties *)

(** ** Strings and dictionaries *)

Lemma str_eqb_refl (a : str) : str_eqb a a = true.
Proof.
  induction a as [|x a IH]; simpl; [reflexivity|].
  now rewrite N.eqb_refl, IH.
Qed.

Lemma str_eqb_eq (a b : str) : str_eqb a b = true <-> a = b.
Proof.
  split; [|intros ->; apply str_eqb_refl].
  revert b; induction a as [|x a IH]; intros [|y b]; simpl; try discriminate; auto.
  intros H. apply andb_true_iff in H as [Hx Hab].
  apply N.eqb_eq in Hx. apply IH in Hab. congruence.
Qed.

Lemma str_eqb_neq (a b : str) : str_eqb a b = false <-> a <> b.
Proof.
  split.
  - intros H E. apply str_eqb_eq in E. congruence.
  - intros H. destruct (str_eqb a b) eqn:E; [|reflexivity].
    apply str_eqb_eq in E. contradiction.
Qed.

Lemma str_eqb_sym (a b : str) : str_eqb a b = str_eqb b a.
Proof.
  destruct (str_eqb a b) eqn:E.
  - apply str_eqb_eq in E. subst. now rewrite str_eqb_refl.
  - symmetry. apply str_eqb_neq. apply str_eqb_neq in E. congruence.
Qed.

Lemma dict_lookup_set (d : dict) (k k' : str) (v : json) :
  dict_lookup k (dict_set d k' v) =
  if str_eqb k k' then Some v else dict_lookup k d.
Proof.
  induction d as [|[k0 v0] d IH]; simpl.
  - reflexivity.
  - destruct (str_eqb k' k0) eqn:E; simpl.
    + apply str_eqb_eq in E. subst k0.
      destruct (str_eqb k k'); reflexivity.
    + rewrite IH. destruct (str_eqb k k0) eqn:E0; [|reflexivity].
      apply str_eqb_eq in E0. subst k0.
      destruct (str_eqb k k') eqn:E1; [|reflexivity].
      apply str_eqb_eq in E1. subst. rewrite str_eqb_refl in E. discriminate.
Qed.

Lemma dict_lookup_none (k : str) (d : dict) :
  dict_lookup k d = None <-> ~ In k (dict_keys d).
Proof.
  induction d as [|[k0 v0] d IH]; simpl.
  - tauto.
  - destruct (str_eqb k k0) eqn:E.
    + apply str_eqb_eq in E. subst. split; [discriminate|tauto].
    + apply str_eqb_neq in E. rewrite IH. split; [intros H [H'|H']; congruence|tauto].
Qed.

(** Folding [dict_set] over entries with distinct keys: the entries win,
    the rest of the dictionary is kept. *)
Lemma dict_lookup_fold_set (b : list (str * json)) (a : dict) (k : str) :
  NoDup (dict_keys b) ->
  dict_lookup k (fold_left (fun d kv => dict_set d (fst kv) (snd kv)) b a) =
  match dict_lookup k b with
  | Some v => Some v
  | None => dict_lookup k a
  end.
Proof.
  revert a. induction b as [|[k0 v0] b IH]; intros a Hnd; simpl.
  - reflexivity.
  - inversion Hnd as [|? ? Hnotin Hnd']; subst.
    rewrite IH by assumption. simpl. rewrite dict_lookup_set.
    destruct (str_eqb k k0) eqn:E.
    + apply str_eqb_eq in E. subst k0.
      apply dict_lookup_none in Hnotin. now rewrite Hnotin.
    + reflexivity.
Qed.

Lemma dict_keys_set (d : dict) (k : str) (v : json) :
  dict_keys (dict_set d k v) =
  if has_key k d then dict_keys d else dict_keys d ++ [k].
Proof.
  unfold has_key. induction d as [|[k0 v0] d IH]; simpl.
  - reflexivity.
  - destruct (str_eqb k k0) eqn:E; simpl; [reflexivity|].
    unfold dict_keys in *. simpl. rewrite IH.
    destruct (dict_lookup k d); reflexivity.
Qed.

Lemma dict_set_nodup (d : dict) (k : str) (v : json) :
  NoDup (dict_keys d) -> NoDup (dict_keys (dict_set d k v)).
Proof.
  intros H. rewrite dict_keys_set. unfold has_key.
  destruct (dict_lookup k d) eqn:E; [assumption|].
  apply dict_lookup_none in E.
  apply NoDup_app; [assumption|repeat constructor; simpl; tauto|].
  intros x Hx [<-|[]]. contradiction.
Qed.

Lemma fold_set_nodup (b : list (str * json)) (a : dict) :
  NoDup (dict_keys a) ->
  NoDup (dict_keys (fold_left (fun d kv => dict_set d (fst kv) (snd kv)) b a)).
Proof.
  revert a. induction b as [|[k v] b IH]; intros a H; simpl; [assumption|].
  apply IH. now apply dict_set_nodup.
Qed.

Lemma dict_of_pairs_nodup (pairs : list (str * json)) :
  NoDup (dict_keys (dict_of_pairs pairs)).
Proof. apply fold_set_nodup. constructor. Qed.

(** ** The decoder consumes text and never runs out of fuel *)

Lemma skip_ws_length (s : str) : (List.length (skip_ws s) <= List.length s)%nat.
Proof.
  induction s as [|c s IH]; simpl; [lia|].
  destruct (is_ws c); simpl; lia.
Qed.

Lemma cons_char_some (c : N) (r : option (str * str)) (k rest : str) :
  cons_char c r = Some (k, rest) ->
  exists k', r = Some (k', rest) /\ k = c :: k'.
Proof.
  destruct r as [[k' rest']|]; simpl; [|discriminate].
  intros H. inversion H; subst. eauto.
Qed.

Lemma scanstring_length (s k r : str) :
  scanstring s = Some (k, r) -> (List.length r < List.length s)%nat.
Proof.
  assert (Hle : (List.length s <= List.length s)%nat) by lia.
  revert Hle. generalize (List.length s) at 2 as n. intros n.
  revert s k r.
  induction n as [|n IH]; intros s k r Hle H.
  - destruct s; simpl in *; [discriminate|lia].
  - assert (Hrec : forall c s' k' r', (List.length s' <= n)%nat ->
              cons_char c (scanstring s') = Some (k', r') ->
              (List.length r' < S (List.length s'))%nat).
    { intros c s' k' r' Hl Hc. apply cons_char_some in Hc as (k0 & Hs & _).
      apply IH in Hs; [lia|assumption]. }
    destruct s as [|c s1]; [discriminate|]. cbn [scanstring] in H.
    destruct (c =? DQUOTE). { inversion H; subst. simpl. lia. }
    destruct (c <? 32); [discriminate|].
    destruct (c =? BACKSLASH).
    2:{ apply Hrec in H; simpl in *; lia. }
    destruct s1 as [|e s2]; [discriminate|].
    destruct (e =? ch "u").
    2:{ destruct (unescape e); [|discriminate].
        apply Hrec in H; simpl in *; lia. }
    destruct s2 as [|a [|b [|c' [|d s3]]]]; try discriminate.
    destruct (hex4 a b c' d) as [uni|]; [|discriminate].
    assert (H3 : forall k' r', cons_char uni (scanstring s3) = Some (k', r') ->
              (List.length r' < List.length (c :: e :: a :: b :: c' :: d :: s3))%nat).
    { intros k' r' Hc. apply Hrec in Hc; simpl in *; lia. }
    destruct (high_surrogate uni); [|eapply H3; eassumption].
    destruct s3 as [|b1 [|u1 [|a2 [|b2 [|c2 [|d2 s4]]]]]];
      try (eapply H3; eassumption).
    destruct ((b1 =? BACKSLASH) && (u1 =? ch "u")); [|eapply H3; eassumption].
    destruct (hex4 a2 b2 c2 d2) as [uni2|]; [|discriminate].
    destruct (low_surrogate uni2); [|eapply H3; eassumption].
    apply Hrec in H; simpl in *; lia.
Qed.

Lemma span_digits_length (s : str) :
  (List.length (snd (span_digits s)) <= List.length s)%nat.
Proof.
  induction s as [|c s IH]; simpl; [lia|].
  destruct (is_digit c); simpl; [|lia].
  destruct (span_digits s); simpl in *; lia.
Qed.

Lemma match_integer_length (s ds r : str) (neg : bool) :
  match_integer s = Some (neg, ds, r) -> (List.length r < List.length s)%nat.
Proof.
  unfold match_integer.
  assert (Hd : forall c s2 neg' ds' r',
             (if c =? ch "0" then Some (neg', [c], s2)
              else if is_digit c
                   then let (d, r0) := span_digits s2 in Some (neg', c :: d, r0)
                   else None) = Some (neg, ds', r') ->
             (List.length r' <= List.length s2)%nat).
  { intros c s2 neg' ds' r' H. destruct (c =? ch "0").
    - inversion H; subst; lia.
    - destruct (is_digit c); [|discriminate].
      pose proof (span_digits_length s2) as Hl.
      destruct (span_digits s2); inversion H; subst; simpl in *; lia. }
  destruct s as [|c s']; [discriminate|].
  destruct (c =? ch "-").
  - destruct s' as [|c2 s2]; [discriminate|]. intros H. apply Hd in H. simpl; lia.
  - intros H. apply Hd in H. simpl; lia.
Qed.

Lemma match_frac_length (s : str) :
  (List.length (snd (match_frac s)) <= List.length s)%nat.
Proof.
  destruct s as [|c s1]; cbn [match_frac]; [simpl; lia|].
  destruct (c =? ch "."); [|simpl; lia].
  pose proof (span_digits_length s1) as Hl.
  destruct (span_digits s1) as [[|x d] r]; simpl in *; lia.
Qed.

Lemma match_exp_length (s : str) :
  (List.length (snd (match_exp s)) <= List.length s)%nat.
Proof.
  destruct s as [|c s1]; cbn [match_exp]; [simpl; lia|].
  destruct ((c =? ch "e") || (c =? ch "E")); [|simpl; lia].
  destruct s1 as [|c2 s2].
  - simpl. lia.
  - destruct ((c2 =? ch "-") || (c2 =? ch "+")).
    + pose proof (span_digits_length s2) as Hl.
      destruct (span_digits s2) as [[|x d] r]; simpl in *; lia.
    + pose proof (span_digits_length (c2 :: s2)) as Hl.
      destruct (span_digits (c2 :: s2)) as [[|x d] r]; simpl in *; lia.
Qed.

Lemma match_number_length (s r : str) (v : number) :
  match_number s = Some (v, r) -> (List.length r < List.length s)%nat.
Proof.
  unfold match_number.
  destruct (match_integer s) as [[[neg ds] r0]|] eqn:E; [|discriminate].
  apply match_integer_length in E.
  pose proof (match_frac_length r0) as Hf.
  destruct (match_frac r0) as [frac r1].
  pose proof (match_exp_length r1) as He.
  destruct (match_exp r1) as [exp r2]. simpl in *.
  destruct frac, exp; intros H; inversion H; subst; lia.
Qed.

Lemma starts_with_skipn (p s : str) :
  starts_with p s = true ->
  (List.length (skipn (List.length p) s) + List.length p = List.length s)%nat.
Proof.
  revert s. induction p as [|x p IH]; intros [|y s]; simpl; try discriminate; try lia.
  intros H. apply andb_true_iff in H as [_ H]. apply IH in H. lia.
Qed.

(** Case analysis on the scrutinee of the innermost [if] or [match] of a
    hypothesis or of the goal. *)
Ltac break_in H :=
  once match type of H with
  | context [if ?b then _ else _] =>
      lazymatch b with
      | context [if _ then _ else _] => fail
      | context [match _ with _ => _ end] => fail
      | _ => destruct b eqn:?
      end
  | context [match ?x with _ => _ end] =>
      lazymatch x with
      | context [if _ then _ else _] => fail
      | context [match _ with _ => _ end] => fail
      | _ => destruct x eqn:?
      end
  end.

Ltac break_goal :=
  once match goal with
  | |- context [if ?b then _ else _] =>
      lazymatch b with
      | context [if _ then _ else _] => fail
      | context [match _ with _ => _ end] => fail
      | _ => destruct b eqn:?
      end
  | |- context [match ?x with _ => _ end] =>
      lazymatch x with
      | context [if _ then _ else _] => fail
      | context [match _ with _ => _ end] => fail
      | _ => destruct x eqn:?
      end
  end.

Ltac scanned_inv H := inversion H; subst; clear H.

Ltac len_facts :=
  repeat match goal with
  | H : scanstring _ = Some (_, _) |- _ => apply scanstring_length in H
  | H : match_number _ = Some (_, _) |- _ => apply match_number_length in H
  | H : starts_with _ _ = true |- _ => apply starts_with_skipn in H
  | H : skip_ws ?s = _ |- _ =>
      let L := fresh "L" in
      pose proof (skip_ws_length s) as L; rewrite H in L; clear H
  end.

Ltac ws_facts :=
  repeat match goal with
  | |- context [skip_ws ?s] =>
      lazymatch goal with
      | _ : (List.length (skip_ws s) <= List.length s)%nat |- _ => fail
      | _ => pose proof (skip_ws_length s)
      end
  | H : context [skip_ws ?s] |- _ =>
      lazymatch goal with
      | _ : (List.length (skip_ws s) <= List.length s)%nat |- _ => fail
      | _ => pose proof (skip_ws_length s)
      end
  end.

Lemma scan_length (n : nat) (need max_digits : nat) :
  (forall room s v r, scan_once n room need max_digits s = Scanned v r ->
                 (List.length r < List.length s)%nat) /\
  (forall room s vs r, array_items n room need max_digits s = Scanned vs r ->
                  (List.length r < List.length s)%nat) /\
  (forall room s ps r, object_items n room need max_digits s = Scanned ps r ->
                  (List.length r < List.length s)%nat).
Proof.
  induction n as [|n (IHs & IHa & IHo)].
  - repeat split; intros; discriminate.
  - repeat split.
    + intros room s v r H. cbn [scan_once] in H.
      destruct s as [|c s1]; [discriminate|].
      repeat break_in H; try discriminate; scanned_inv H;
        repeat match goal with
        | H : array_items n _ _ _ _ = Scanned _ _ |- _ => apply IHa in H
        | H : object_items n _ _ _ _ = Scanned _ _ |- _ => apply IHo in H
        end; len_facts; simpl in *; lia.
    + intros room s vs r H. cbn [array_items] in H.
      repeat break_in H; try discriminate; scanned_inv H;
        repeat match goal with
        | H : scan_once n _ _ _ _ = Scanned _ _ |- _ => apply IHs in H
        | H : array_items n _ _ _ _ = Scanned _ _ |- _ => apply IHa in H
        end;
        ws_facts; len_facts; simpl in *; lia.
    + intros room s ps r H. cbn [object_items] in H.
      repeat break_in H; try discriminate; scanned_inv H;
        repeat match goal with
        | H : scan_once n _ _ _ _ = Scanned _ _ |- _ => apply IHs in H
        | H : object_items n _ _ _ _ = Scanned _ _ |- _ => apply IHo in H
        end;
        ws_facts; len_facts; simpl in *; lia.
Qed.

Lemma errmsg_fuel (room need : nat) : errmsg room need <> NoFuel.
Proof. unfold errmsg. destruct (room <? need)%nat; discriminate. Qed.

Ltac stop_fuel :=
  match goal with
  | H : Stop _ = Stop NoFuel |- _ => inversion H; subst; clear H
  | H : errmsg _ _ = NoFuel |- _ => exfalso; exact (errmsg_fuel _ _ H)
  end.

Lemma scan_fuel (n : nat) (need max_digits : nat) :
  (forall room s, (2 * List.length s + 1 <= n)%nat ->
                  scan_once n room need max_digits s <> Stop NoFuel) /\
  (forall room s, (2 * List.length s + 2 <= n)%nat ->
                  array_items n room need max_digits s <> Stop NoFuel) /\
  (forall room s, (2 * List.length s + 2 <= n)%nat ->
                  object_items n room need max_digits s <> Stop NoFuel).
Proof.
  induction n as [|n (IHs & IHa & IHo)].
  - repeat split; intros; lia.
  - pose proof (scan_length n need max_digits) as (Ls & La & Lo).
    repeat split.
    + intros room s Hn. cbn [scan_once].
      destruct s as [|c s1]; [discriminate|].
      repeat break_goal; try discriminate;
        try (intros Hstop; inversion Hstop as [Hwhy];
             exfalso; exact (errmsg_fuel _ _ Hwhy));
        intros Hstop; inversion Hstop; subst; exfalso; len_facts;
        lazymatch goal with
        | H : array_items _ ?r _ _ ?x = Stop NoFuel |- _ =>
            apply (IHa r x); [|exact H]
        | H : object_items _ ?r _ _ ?x = Stop NoFuel |- _ =>
            apply (IHo r x); [|exact H]
        end; simpl in *; lia.
    + intros room s Hn. cbn [array_items].
      repeat break_goal; try discriminate;
        try (intros Hstop; inversion Hstop as [Hwhy];
             exfalso; exact (errmsg_fuel _ _ Hwhy));
        intros Hstop; inversion Hstop; subst; exfalso;
        repeat match goal with
        | H : scan_once _ _ _ _ _ = Scanned _ _ |- _ => apply Ls in H
        end;
        lazymatch goal with
        | H : array_items _ ?r _ _ ?x = Stop NoFuel |- _ =>
            apply (IHa r x); [|exact H]
        | H : scan_once _ ?r _ _ ?x = Stop NoFuel |- _ =>
            apply (IHs r x); [|exact H]
        end; ws_facts; len_facts; simpl in *; lia.
    + intros room s Hn. cbn [object_items].
      repeat break_goal; try discriminate;
        try (intros Hstop; inversion Hstop as [Hwhy];
             exfalso; exact (errmsg_fuel _ _ Hwhy));
        intros Hstop; inversion Hstop; subst; exfalso;
        repeat match goal with
        | H : scan_once _ _ _ _ _ = Scanned _ _ |- _ => apply Ls in H
        end;
        lazymatch goal with
        | H : object_items _ ?r _ _ ?x = Stop NoFuel |- _ =>
            apply (IHo r x); [|exact H]
        | H : scan_once _ ?r _ _ ?x = Stop NoFuel |- _ =>
            apply (IHs r x); [|exact H]
        end; ws_facts; len_facts; simpl in *; lia.
Qed.

(** ** [json.loads] *)

Lemma decode_error_cases (py : interp) (frames : nat) :
  decode_error py frames = JSONDecodeError \/
  decode_error py frames = RecursionError.
Proof.
  unfold decode_error.
  destruct (recursion_room py + frames <? error_room py)%nat; auto.
Qed.

(** The decoder returns a value, or raises [JSONDecodeError], or stops at a
    limit of the interpreter. *)
Lemma json_loads_cases (py : interp) (s : str) :
  (exists v, json_loads py s = Ok v) \/
  json_loads py s = Raise JSONDecodeError \/
  (exists e, is_limit_exn e = true /\ json_loads py s = Raise e).
Proof.
  assert (Hd : forall frames,
             Raise (A := json) (decode_error py frames) = Raise JSONDecodeError \/
             exists e, is_limit_exn e = true /\
                       Raise (A := json) (decode_error py frames) = Raise e).
  { intros frames. destruct (decode_error_cases py frames) as [-> | ->].
    - now left.
    - right. exists RecursionError. split; reflexivity. }
  unfold json_loads.
  destruct (starts_with [65279] s); [right; apply Hd|].
  destruct (scan_once (fuel_for s) (recursion_room py) (error_room py)
                      (int_max_str_digits py) (skip_ws s)) as [v r|why] eqn:E.
  - destruct (skip_ws r); [left; eauto|right; apply Hd].
  - right. destruct why; simpl.
    + apply Hd.
    + now left.
    + right. exists RecursionError. split; reflexivity.
    + right. exists ValueError. split; reflexivity.
    + exfalso.
      destruct (scan_fuel (fuel_for s) (error_room py) (int_max_str_digits py))
        as (Hs & _ & _).
      apply (Hs (recursion_room py) (skip_ws s)); [|exact E].
      pose proof (skip_ws_length s). unfold fuel_for. lia.
Qed.

(** *** Texts within the limits

    A text shorter than the room left nests no deeper than that room, and
    its integers have no more digits than it has characters. *)

Lemma span_digits_digits (s : str) :
  (List.length (fst (span_digits s)) <= List.length s)%nat.
Proof.
  induction s as [|c s IH]; simpl; [lia|].
  destruct (is_digit c); simpl; [|lia].
  destruct (span_digits s); simpl in *; lia.
Qed.

Lemma match_integer_digits (s ds r : str) (neg : bool) :
  match_integer s = Some (neg, ds, r) ->
  (List.length ds <= List.length s)%nat.
Proof.
  unfold match_integer.
  assert (Hd : forall c s2 neg' ds' r',
             (if c =? ch "0" then Some (neg', [c], s2)
              else if is_digit c
                   then let (d, r0) := span_digits s2 in Some (neg', c :: d, r0)
                   else None) = Some (neg, ds', r') ->
             (List.length ds' <= S (List.length s2))%nat).
  { intros c s2 neg' ds' r' H. destruct (c =? ch "0").
    - inversion H; subst; simpl; lia.
    - destruct (is_digit c); [|discriminate].
      pose proof (span_digits_digits s2) as Hl.
      destruct (span_digits s2); inversion H; subst; simpl in *; lia. }
  destruct s as [|c s']; [discriminate|].
  destruct (c =? ch "-").
  - destruct s' as [|c2 s2]; [discriminate|]. intros H. apply Hd in H. simpl; lia.
  - intros H. apply Hd in H. simpl; lia.
Qed.

Lemma match_number_digits (s r ds : str) (neg : bool) :
  match_number s = Some (Integer neg ds, r) ->
  (List.length ds <= List.length s)%nat.
Proof.
  unfold match_number.
  destruct (match_integer s) as [[[neg' ds'] r0]|] eqn:E; [|discriminate].
  apply match_integer_digits in E.
  destruct (match_frac r0) as [frac r1].
  destruct (match_exp r1) as [exp r2].
  destruct frac, exp; intros H; inversion H; subst; assumption.
Qed.

Lemma int_of_digits_short (max_digits : nat) (neg : bool) (ds : str) :
  (List.length ds <= Nat.max 640 max_digits)%nat ->
  int_of_digits max_digits neg ds <> None.
Proof.
  intros H. unfold int_of_digits.
  destruct (0 <? max_digits)%nat eqn:E0; [|discriminate].
  destruct (max_digits <? List.length ds)%nat eqn:E1; [|discriminate].
  destruct (640 <? List.length ds)%nat eqn:E2; [|discriminate].
  apply Nat.ltb_lt in E1, E2. lia.
Qed.

Lemma errmsg_enough (room need : nat) :
  (need <= room)%nat -> errmsg room need = Malformed.
Proof.
  intros H. unfold errmsg.
  destruct (room <? need)%nat eqn:E; [|reflexivity].
  apply Nat.ltb_lt in E. lia.
Qed.

Lemma scan_short (n : nat) (need max_digits : nat) :
  (forall room s why,
      (List.length s + need <= room)%nat ->
      (List.length s <= Nat.max 640 max_digits)%nat ->
      scan_once n room need max_digits s = Stop why ->
      is_limit_stop why = false) /\
  (forall room s why,
      (List.length s + need <= room)%nat ->
      (List.length s <= Nat.max 640 max_digits)%nat ->
      array_items n room need max_digits s = Stop why ->
      is_limit_stop why = false) /\
  (forall room s why,
      (List.length s + need <= room)%nat ->
      (List.length s <= Nat.max 640 max_digits)%nat ->
      object_items n room need max_digits s = Stop why ->
      is_limit_stop why = false).
Proof.
  induction n as [|n (IHs & IHa & IHo)].
  - repeat split; intros room s why _ _ H; inversion H; reflexivity.
  - pose proof (scan_length n need max_digits) as (Ls & La & Lo).
    repeat split.
    + intros room s why Hroom Hlen H. cbn [scan_once] in H.
      destruct s as [|c s1]; [inversion H; reflexivity|].
      repeat break_in H; try discriminate; inversion H; subst; clear H;
        try reflexivity;
        try (rewrite errmsg_enough; [reflexivity|simpl in *; lia]);
        try (exfalso; simpl in *; lia);
        try (exfalso;
             lazymatch goal with
             | Hn : match_number _ = Some (Integer _ _, _),
               Hi : int_of_digits _ _ _ = None |- _ =>
                 apply match_number_digits in Hn;
                 apply int_of_digits_short in Hi; [exact Hi|lia]
             end);
        lazymatch goal with
        | H : array_items n ?r _ _ ?x = Stop ?w |- _ =>
            apply (IHa r x w); [| |exact H]
        | H : object_items n ?r _ _ ?x = Stop ?w |- _ =>
            apply (IHo r x w); [| |exact H]
        end; len_facts; simpl in *; lia.
    + intros room s why Hroom Hlen H. cbn [array_items] in H.
      repeat break_in H; try discriminate; inversion H; subst; clear H;
        try (rewrite errmsg_enough; [reflexivity|lia]);
        repeat match goal with
        | H : scan_once _ _ _ _ _ = Scanned _ _ |- _ => apply Ls in H
        end;
        lazymatch goal with
        | H : array_items n ?r _ _ ?x = Stop ?w |- _ =>
            apply (IHa r x w); [| |exact H]
        | H : scan_once n ?r _ _ ?x = Stop ?w |- _ =>
            apply (IHs r x w); [| |exact H]
        end; ws_facts; len_facts; simpl in *; lia.
    + intros room s why Hroom Hlen H. cbn [object_items] in H.
      repeat break_in H; try discriminate; inversion H; subst; clear H;
        try (rewrite errmsg_enough; [reflexivity|lia]);
        repeat match goal with
        | H : scan_once _ _ _ _ _ = Scanned _ _ |- _ => apply Ls in H
        end;
        lazymatch goal with
        | H : object_items n ?r _ _ ?x = Stop ?w |- _ =>
            apply (IHo r x w); [| |exact H]
        | H : scan_once n ?r _ _ ?x = Stop ?w |- _ =>
            apply (IHs r x w); [| |exact H]
        end; ws_facts; len_facts; simpl in *; lia.
Qed.

(** On a text within the limits the decoder raises nothing but
    [JSONDecodeError]. *)
Lemma json_loads_short (py : interp) (s : str) (e : exn) :
  (List.length s + error_room py <= recursion_room py)%nat ->
  (List.length s <= Nat.max 640 (int_max_str_digits py))%nat ->
  json_loads py s = Raise e -> e = JSONDecodeError.
Proof.
  intros Hroom Hlen.
  assert (Hd : forall frames, decode_error py frames = JSONDecodeError).
  { intros frames. unfold decode_error.
    destruct (recursion_room py + frames <? error_room py)%nat eqn:E;
      [|reflexivity].
    apply Nat.ltb_lt in E. lia. }
  unfold json_loads.
  destruct (starts_with [65279] s).
  { intros H. inversion H. apply Hd. }
  destruct (scan_once (fuel_for s) (recursion_room py) (error_room py)
                      (int_max_str_digits py) (skip_ws s)) as [v r|why] eqn:E.
  - destruct (skip_ws r); [discriminate|].
    intros H. inversion H. apply Hd.
  - destruct (scan_short (fuel_for s) (error_room py) (int_max_str_digits py))
      as (Hs & _ & _).
    pose proof (skip_ws_length s) as Hws.
    pose proof E as El. apply Hs in El; [|lia|lia].
    destruct (scan_fuel (fuel_for s) (error_room py) (int_max_str_digits py))
      as (Hf & _ & _).
    intros H. inversion H as [He]. clear H He.
    destruct why; simpl in *; try discriminate El.
    + apply Hd.
    + reflexivity.
    + exfalso. apply (Hf (recursion_room py) (skip_ws s)); [|exact E].
      unfold fuel_for. lia.
Qed.

(** A text that starts with an opening brace decodes, if at all, to a
    dictionary with one entry per key. *)
Lemma json_loads_brace (py : interp) (s : str) (v : json) :
  json_loads py (LBRACE :: s) = Ok v ->
  exists d, v = JObject d /\ NoDup (dict_keys d).
Proof.
  unfold json_loads.
  destruct (starts_with [65279] (LBRACE :: s)); [discriminate|].
  change (skip_ws (LBRACE :: s)) with (LBRACE :: s).
  destruct (fuel_for (LBRACE :: s)) as [|n]; [discriminate|].
  cbn [scan_once].
  change (LBRACE =? DQUOTE) with false. change (LBRACE =? LBRACE) with true.
  cbv iota.
  destruct (recursion_room py) as [|room']; [discriminate|].
  destruct (skip_ws s) as [|c1 r1]; [discriminate|].
  destruct (c1 =? RBRACE).
  - destruct (skip_ws r1); [|discriminate].
    intros H; inversion H; subst. exists []. split; [reflexivity|constructor].
  - destruct (c1 =? DQUOTE); [|discriminate].
    destruct (object_items n room' (error_room py) (int_max_str_digits py) r1)
      as [pairs r|why]; try discriminate.
    destruct (skip_ws r); [|discriminate].
    intros H; inversion H; subst.
    exists (dict_of_pairs pairs). split; [reflexivity|apply dict_of_pairs_nodup].
Qed.

(** ** The search for the candidate *)

Lemma greedy_to_close_none (s : str) :
  greedy_to_close s = None <-> ~ In RBRACE s.
Proof.
  induction s as [|c s IH]; simpl.
  - tauto.
  - destruct (greedy_to_close s) as [m|].
    + split; [discriminate|]. intros H. exfalso.
      destruct (in_dec N.eq_dec RBRACE s) as [Hin|Hout]; [tauto|].
      apply IH in Hout. discriminate.
    + destruct (c =? RBRACE) eqn:E.
      * apply N.eqb_eq in E. split; [discriminate|tauto].
      * apply N.eqb_neq in E. split; [|reflexivity].
        intros _ [H|H]; [congruence|]. now apply IH.
Qed.

Lemma greedy_to_close_some (s m : str) :
  greedy_to_close s = Some m ->
  exists body suf, m = body ++ [RBRACE] /\ s = m ++ suf /\ ~ In RBRACE suf.
Proof.
  revert m. induction s as [|c s IH]; intros m; simpl; [discriminate|].
  destruct (greedy_to_close s) as [m'|] eqn:E.
  - intros H; inversion H; subst.
    destruct (IH m' eq_refl) as (body & suf & -> & -> & Hsuf).
    exists (c :: body), suf. repeat split; auto.
  - destruct (c =? RBRACE) eqn:Ec; [|discriminate].
    apply N.eqb_eq in Ec. subst c.
    intros H; inversion H; subst.
    exists [], s. repeat split; [now apply greedy_to_close_none].
Qed.

Lemma greedy_to_close_app (body suf : str) :
  ~ In RBRACE suf ->
  greedy_to_close (body ++ RBRACE :: suf) = Some (body ++ [RBRACE]).
Proof.
  intros Hsuf. induction body as [|c body IH]; simpl.
  - apply greedy_to_close_none in Hsuf. now rewrite Hsuf.
  - now rewrite IH.
Qed.

(** The candidate is a substring that opens and closes with a brace. *)
Lemma re_search_some (text m : str) :
  re_search text = Some m ->
  exists pre body suf,
    text = pre ++ m ++ suf /\ m = LBRACE :: body ++ [RBRACE] /\
    ~ In LBRACE pre /\ ~ In RBRACE suf.
Proof.
  induction text as [|c text IH]; simpl; [discriminate|].
  destruct (c =? LBRACE) eqn:Ec.
  - apply N.eqb_eq in Ec. subst c.
    destruct (greedy_to_close text) as [m'|] eqn:E.
    + intros H; inversion H; subst.
      apply greedy_to_close_some in E as (body & suf & -> & -> & Hsuf).
      exists [], body, suf. repeat split; auto.
    + intros H. apply greedy_to_close_none in E.
      destruct (IH H) as (pre & body & suf & -> & -> & _ & _).
      exfalso. apply E. apply in_or_app. right. simpl. right.
      apply in_or_app. left. apply in_or_app. right. now left.
  - apply N.eqb_neq in Ec. intros H.
    destruct (IH H) as (pre & body & suf & -> & -> & Hpre & Hsuf).
    exists (c :: pre), body, suf. repeat split; auto.
    intros [Hc|Hin]; [congruence|contradiction].
Qed.

(** No opening brace followed by a closing brace: no candidate. *)
Lemma re_search_none (text : str) :
  re_search text = None <->
  (forall pre mid suf, text <> pre ++ LBRACE :: mid ++ RBRACE :: suf).
Proof.
  split.
  - induction text as [|c text IH]; simpl; intros H pre mid suf E.
    + destruct pre; discriminate.
    + destruct (c =? LBRACE) eqn:Ec.
      * destruct (greedy_to_close text) eqn:Eg; [discriminate|].
        apply greedy_to_close_none in Eg.
        destruct pre as [|p pre]; simpl in E; inversion E; subst.
        -- apply Eg. apply in_or_app. right. now left.
        -- apply Eg. apply in_or_app. right. right.
           apply in_or_app. right. now left.
      * destruct pre as [|p pre]; simpl in E; inversion E; subst.
        -- rewrite N.eqb_refl in Ec. discriminate.
        -- eapply IH; eauto.
  - intros H. destruct (re_search text) as [m|] eqn:E; [|reflexivity].
    apply re_search_some in E as (pre & body & suf & -> & -> & _).
    exfalso. apply (H pre body suf). simpl. now rewrite <- !app_assoc.
Qed.

(** The candidate is the text from the first opening brace to the last
    closing brace. *)
Lemma re_search_app (pre body suf : str) :
  ~ In LBRACE pre -> ~ In RBRACE suf ->
  re_search (pre ++ (LBRACE :: body ++ [RBRACE]) ++ suf) =
  Some (LBRACE :: body ++ [RBRACE]).
Proof.
  intros Hpre Hsuf. induction pre as [|c pre IH]; simpl.
  - rewrite <- app_assoc. simpl.
    now rewrite greedy_to_close_app.
  - destruct (c =? LBRACE) eqn:Ec.
    + apply N.eqb_eq in Ec. subst. exfalso. apply Hpre. now left.
    + apply IH. intros H. apply Hpre. now right.
Qed.

(** ** [extract_json] *)

Lemma extract_json_no_candidate (py : interp) (text : str) (w : world) :
  re_search text = None -> extract_json py text w = (Ok (JObject []), w).
Proof. unfold extract_json. now intros ->. Qed.

Lemma extract_json_parsed (py : interp) (text m : str) (v : json) (w : world) :
  re_search text = Some m -> json_loads py m = Ok v ->
  extract_json py text w = (Ok v, w).
Proof.
  unfold extract_json, try_except, lift. now intros -> ->.
Qed.

(** A candidate the decoder rejects as malformed: reported and absorbed. *)
Lemma extract_json_unparsed (py : interp) (text m : str) (w : world) :
  re_search text = Some m -> json_loads py m = Raise JSONDecodeError ->
  extract_json py text w =
  (Ok (JObject []), World (calls w) (stdout w ++ [JSON_Parsing_Error])).
Proof.
  unfold extract_json, try_except, lift. now intros -> ->.
Qed.

(** A candidate on which the decoder stops at a limit of the interpreter:
    the exception is no [JSONDecodeError] and reaches the caller. *)
Lemma extract_json_limit (py : interp) (text m : str) (e : exn) (w : world) :
  re_search text = Some m -> json_loads py m = Raise e ->
  is_limit_exn e = true ->
  extract_json py text w = (Raise e, w).
Proof.
  unfold extract_json, try_except, lift. intros -> -> He.
  destruct e; try discriminate; reflexivity.
Qed.

(** [extract_json] returns a dictionary with one entry per key, making no
    call and printing at most its parsing error, or raises what stopped the
    decoder at a limit. *)
Lemma extract_json_dict (py : interp) (text : str) (w : world) :
  (exists d,
      NoDup (dict_keys d) /\
      (extract_json py text w = (Ok (JObject d), w) \/
       d = [] /\
       extract_json py text w =
       (Ok (JObject []), World (calls w) (stdout w ++ [JSON_Parsing_Error])))) \/
  (exists e, is_limit_exn e = true /\ extract_json py text w = (Raise e, w)).
Proof.
  destruct (re_search text) as [m|] eqn:E.
  - destruct (json_loads_cases py m) as [[v Hv]|[Hr|(e & He & Hr)]].
    + pose proof E as E'.
      apply re_search_some in E' as (pre & body & suf & _ & -> & _).
      destruct (json_loads_brace _ _ _ Hv) as (d & -> & Hd).
      left. exists d. split; [assumption|]. left.
      eapply extract_json_parsed; eauto.
    + left. exists []. split; [constructor|]. right. split; [reflexivity|].
      eapply extract_json_unparsed; eauto.
    + right. exists e. split; [assumption|].
      eapply extract_json_limit; eauto.
  - left. exists []. split; [constructor|]. left.
    now apply extract_json_no_candidate.
Qed.

(** ** [extract_metadata] *)

(** When the client answers, [extract_metadata] is [extract_json] on the
    stripped answer. *)
Lemma extract_metadata_completion
    (py : interp) (llm : nat -> str -> result str) (post content : str)
    (w : world) :
  llm (calls w) (post_prompt (clean_text post)) = Ok content ->
  extract_metadata py llm post w =
  extract_json py (strip content) (World (S (calls w)) (stdout w)).
Proof.
  intros Hllm. unfold extract_metadata, try_except, bind, invoke.
  rewrite Hllm.
  destruct (extract_json_dict py (strip content)
              (World (S (calls w)) (stdout w)))
    as [(d & _ & [E|[-> E]])|(e & He & E)]; rewrite E;
    [reflexivity|reflexivity|].
  destruct e; try discriminate; reflexivity.
Qed.

(** When the client raises, a parsing exception is replaced by the
    fallback and reported; any other exception reaches the caller. *)
Lemma extract_metadata_failure
    (py : interp) (llm : nat -> str -> result str) (post : str) (e : exn)
    (w : world) :
  llm (calls w) (post_prompt (clean_text post)) = Raise e ->
  extract_metadata py llm post w =
  if is_parsing_exn e
  then (Ok fallback_metadata,
        World (S (calls w)) (stdout w ++ [Output_parsing_failed e]))
  else (Raise e, World (S (calls w)) (stdout w)).
Proof.
  intros Hllm. unfold extract_metadata, try_except, bind, invoke.
  rewrite Hllm. destruct e; reflexivity.
Qed.

(** What [extract_metadata] returns is a dictionary with one entry per
    key; it makes one call and prints no format warning; when the client
    answers it raises only what stopped the decoder at a limit. *)
Lemma extract_metadata_dict
    (py : interp) (llm : nat -> str -> result str) (post : str) (w : world) :
  exists new,
    snd (extract_metadata py llm post w) =
    World (S (calls w)) (stdout w ++ new) /\
    forallb (fun l => negb (is_format_warning l)) new = true /\
    match llm (calls w) (post_prompt (clean_text post)) with
    | Ok _ =>
        (exists d, fst (extract_metadata py llm post w) = Ok (JObject d) /\
                   NoDup (dict_keys d)) \/
        (exists e, is_limit_exn e = true /\
                   fst (extract_metadata py llm post w) = Raise e)
    | Raise e =>
        fst (extract_metadata py llm post w) =
        if is_parsing_exn e then Ok fallback_metadata else Raise e
    end.
Proof.
  destruct (llm (calls w) (post_prompt (clean_text post))) as [content|e] eqn:E.
  - rewrite (extract_metadata_completion _ _ _ _ _ E).
    destruct (extract_json_dict py (strip content)
                (World (S (calls w)) (stdout w)))
      as [(d & Hd & [H|[-> H]])|(e & He & H)]; rewrite H; simpl.
    + exists []. rewrite app_nil_r. repeat split; eauto.
    + exists [JSON_Parsing_Error]. repeat split; eauto.
    + exists []. rewrite app_nil_r. repeat split; eauto.
  - rewrite (extract_metadata_failure _ _ _ _ _ E).
    destruct (is_parsing_exn e); simpl.
    + exists [Output_parsing_failed e]. repeat split.
    + exists []. rewrite app_nil_r. repeat split.
Qed.

(** Every value [extract_metadata] returns is a dictionary with one entry
    per key. *)
Lemma extract_metadata_ok_dict
    (py : interp) (llm : nat -> str -> result str) (post : str)
    (w w' : world) (v : json) :
  extract_metadata py llm post w = (Ok v, w') ->
  exists d, v = JObject d /\ NoDup (dict_keys d).
Proof.
  intros E.
  destruct (extract_metadata_dict py llm post w) as (new & _ & _ & Hres).
  rewrite E in Hres. simpl in Hres.
  destruct (llm (calls w) (post_prompt (clean_text post))) as [c|e].
  - destruct Hres as [(d & Hd & Hnd)|(e & _ & He)]; [|discriminate].
    inversion Hd; subst. eauto.
  - destruct (is_parsing_exn e); [|discriminate].
    inversion Hres; subst. eexists. split; [reflexivity|].
    repeat constructor; simpl; intuition discriminate.
Qed.

(** The candidate decodes to a dictionary or not at all. *)
Lemma candidate_is_dict (py : interp) (text m : str) (v : json) :
  re_search text = Some m -> json_loads py m = Ok v -> is_dict v = true.
Proof.
  intros Hm Hv.
  apply re_search_some in Hm as (pre & body & suf & _ & -> & _).
  apply json_loads_brace in Hv as (d & -> & _). reflexivity.
Qed.

(** * The claims *)

(** ** C7 *)







(** ** C3 *)

(** C3, as stated, fails: the candidate runs from the first opening brace to
    the last closing brace of the response, so prose with a brace of its own
    before the object hides a well-formed object. *)
Lemma extract_json_any_prose_counterexample :
  ~ (forall py pre body suf v w,
        json_loads py (LBRACE :: body ++ [RBRACE]) = Ok v ->
        fst (extract_json py (pre ++ (LBRACE :: body ++ [RBRACE]) ++ suf) w) = Ok v).
Proof.
  intros H.
  specialize (H cpython (lit "{note} ") (q "'a': 1") (lit " done")
                (JObject [(lit "a", JInt 1)]) w0 eq_refl).
  vm_compute in H. discriminate H.
Qed.

(** C3, amended. For every response string made of a prefix without an
    opening brace, a brace-delimited JSON object that the decoder decodes
    and a suffix without a closing brace, [extract_json] returns that
    object's parsed value, prints nothing and raises nothing. *)
Theorem extract_json_embedded_object (py : interp)
    (pre body suf : str) (v : json) (w : world) :
  ~ In LBRACE pre -> ~ In RBRACE suf ->
  json_loads py (LBRACE :: body ++ [RBRACE]) = Ok v ->
  extract_json py (pre ++ (LBRACE :: body ++ [RBRACE]) ++ suf) w = (Ok v, w).
Proof.
  intros Hpre Hsuf Hv.
  eapply extract_json_parsed; [|exact Hv].
  now apply re_search_app.
Qed.

Lemma extract_json_embedded_object_witness :
  extract_json cpython (q "Sure! Here it is: {'tags': ['AI']} Hope that helps.") w0 =
  (Ok (JObject [(lit "tags", JArray [JString (lit "AI")])]), w0).
Proof.
  apply (extract_json_embedded_object cpython
           (lit "Sure! Here it is: ") (q "'tags': ['AI']")
           (lit " Hope that helps.")
           (JObject [(lit "tags", JArray [JString (lit "AI")])]) w0).
  - vm_compute. intuition discriminate.
  - vm_compute. intuition discriminate.
  - vm_compute. reflexivity.
Defined.

(** ** C10 *)




(** ** C2 *)

(** C2, as stated, fails: the extractor returns the model's object as it
    is, so an object without one of the three keys comes back without it. *)
Lemma extract_metadata_keys_counterexample :
  ~ (forall py llm post w content,
        llm (calls w) (post_prompt (clean_text post)) = Ok content ->
        exists d,
          fst (extract_metadata py llm post w) = Ok (JObject d) /\
          has_key (lit "line_count") d = true /\
          has_key (lit "language") d = true /\
          has_key (lit "tags") d = true).
Proof.
  intros H.
  destruct (H cpython (fun _ _ => Ok (q "{'line_count': 3}")) (lit "Hello") w0
              (q "{'line_count': 3}") eq_refl) as (d & Hd & _ & Hlang & _).
  vm_compute in Hd. inversion Hd; subst. vm_compute in Hlang. discriminate.
Qed.

(** C2, amended. For every post text: when the model's response holds a
    candidate that decodes, [extract_metadata] returns exactly the decoded
    object (a mapping), after one call and without printing, so the result
    has the keys [line_count], [language] and [tags] exactly when the
    model's object has them; when the model call raises a parsing
    exception, it returns exactly the fixed fallback and reports it. *)
Theorem extract_metadata_result (py : interp)
    (llm : nat -> str -> result str) (post : str) (w : world) :
  (forall content m v,
      llm (calls w) (post_prompt (clean_text post)) = Ok content ->
      re_search (strip content) = Some m ->
      json_loads py m = Ok v ->
      is_dict v = true /\
      extract_metadata py llm post w = (Ok v, World (S (calls w)) (stdout w))) /\
  (forall e,
      llm (calls w) (post_prompt (clean_text post)) = Raise e ->
      is_parsing_exn e = true ->
      extract_metadata py llm post w =
      (Ok fallback_metadata,
       World (S (calls w)) (stdout w ++ [Output_parsing_failed e]))).
Proof.
  split.
  - intros content m v Hllm Hm Hv. split.
    + eapply candidate_is_dict; eassumption.
    + rewrite (extract_metadata_completion _ _ _ _ _ Hllm).
      eapply extract_json_parsed; eassumption.
  - intros e Hllm He.
    rewrite (extract_metadata_failure _ _ _ _ _ Hllm). now rewrite He.
Qed.

Lemma extract_metadata_result_witness :
  extract_metadata cpython
    (stub (Ok (q "{'line_count': 1, 'language': 'English', 'tags': ['Hiring']}"))
          (Raise JSONDecodeError))
    (lit "We are hiring!") w0 =
  (Ok (JObject [(lit "line_count", JInt 1);
                (lit "language", JString (lit "English"));
                (lit "tags", JArray [JString (lit "Hiring")])]),
   World 1 []) /\
  extract_metadata cpython
    (stub (Ok (lit "{}")) (Raise JSONDecodeError))
    (lit "We are hiring!") (World 1 []) =
  (Ok fallback_metadata, World 2 [Output_parsing_failed JSONDecodeError]).
Proof.
  split.
  - apply (proj1 (extract_metadata_result cpython _ (lit "We are hiring!") w0)
                 (q "{'line_count': 1, 'language': 'English', 'tags': ['Hiring']}")
                 (q "{'line_count': 1, 'language': 'English', 'tags': ['Hiring']}"));
      vm_compute; reflexivity.
  - apply (proj2 (extract_metadata_result cpython _ (lit "We are hiring!")
                    (World 1 []))
                 JSONDecodeError); reflexivity.
Defined.

(** ** C1 *)

(** C1: what the code does where the claim asks for a fatal error.  The
    model answers the unification prompt with prose; [extract_json] has
    already absorbed the parse failure, the handler of [get_unified_tags]
    sees no exception, and the empty mapping is returned. *)
Theorem get_unified_tags_absorbs_parse_failure :
  get_unified_tags cpython
    (fun _ _ => Ok (lit "Sorry, {I cannot} produce the mapping."))
    first_seen
    [JObject [(lit "text", JString (lit "We are hiring!"));
              (lit "tags", JArray [JString (lit "Hiring")])]]
    w0 =
  (Ok (JObject []), World 1 [JSON_Parsing_Error]).
Proof. vm_compute. reflexivity. Qed.

(** Whatever the model answers, the handler of [get_unified_tags] is never
    entered: [get_unified_tags] is [extract_json] on the answer, which has
    absorbed the parse failure or raises what stopped the decoder. *)
Lemma get_unified_tags_on_answer (py : interp)
    (llm : nat -> str -> result str) (set_iter : list json -> list json)
    (posts : list json) (w : world) (tags : list json) (joined content : str) :
  collect_tags posts [] = Ok tags ->
  py_join [COMMA] (set_iter tags) = Ok joined ->
  llm (calls w) (tags_prompt joined) = Ok content ->
  get_unified_tags py llm set_iter posts w =
  extract_json py content (World (S (calls w)) (stdout w)).
Proof.
  intros Htags Hjoin Hllm.
  unfold get_unified_tags, bind, lift, invoke, try_except.
  rewrite Htags, Hjoin, Hllm.
  destruct (extract_json_dict py content (World (S (calls w)) (stdout w)))
    as [(d & _ & [E|[-> E]])|(e & He & E)]; rewrite E;
    [reflexivity|reflexivity|].
  destruct e; try discriminate; reflexivity.
Qed.

(** ** C4 *)

(** C4, as stated, fails: the mapping is the model's, and the model can
    leave an observed tag out. *)
Lemma get_unified_tags_keys_counterexample :
  ~ (forall py llm set_iter posts w d,
        fst (get_unified_tags py llm set_iter posts w) = Ok (JObject d) ->
        forall t, In (JString t) (observed_tags posts) -> has_key t d = true).
Proof.
  intros H.
  specialize (H cpython (fun _ _ => Ok (q "{'Jobs': 'Job Search'}")) first_seen
                [JObject [(lit "tags", JArray [JString (lit "Jobs");
                                               JString (lit "Hiring")])]]
                w0 [(lit "Jobs", JString (lit "Job Search"))] eq_refl
                (lit "Hiring")).
  assert (Hk : has_key (lit "Hiring")
                 [(lit "Jobs", JString (lit "Job Search"))] = true).
  { apply H. vm_compute. right. left. reflexivity. }
  vm_compute in Hk. discriminate Hk.
Qed.

(** C4, amended. For every enriched collection whose tags can be joined
    and every unification response that holds a candidate that decodes,
    [get_unified_tags] returns exactly the decoded object, a mapping, after
    one call: its key set is the key set of the model's object, whether or
    not that covers the observed tags. *)
Theorem get_unified_tags_returns_model_object (py : interp)
    (llm : nat -> str -> result str) (set_iter : list json -> list json)
    (posts : list json) (w : world)
    (tags : list json) (joined content m : str) (v : json) :
  collect_tags posts [] = Ok tags ->
  py_join [COMMA] (set_iter tags) = Ok joined ->
  llm (calls w) (tags_prompt joined) = Ok content ->
  re_search content = Some m ->
  json_loads py m = Ok v ->
  is_dict v = true /\
  get_unified_tags py llm set_iter posts w =
  (Ok v, World (S (calls w)) (stdout w)).
Proof.
  intros Htags Hjoin Hllm Hm Hv. split.
  - eapply candidate_is_dict; eassumption.
  - unfold get_unified_tags, bind, lift, invoke, try_except.
    rewrite Htags, Hjoin, Hllm.
    now rewrite (extract_json_parsed _ _ _ _ _ Hm Hv).
Qed.

Lemma get_unified_tags_returns_model_object_witness :
  get_unified_tags cpython
    (fun _ _ => Ok (q "{'Jobs': 'Job Search'}")) first_seen
    [JObject [(lit "tags", JArray [JString (lit "Jobs");
                                   JString (lit "Hiring")])]] w0 =
  (Ok (JObject [(lit "Jobs", JString (lit "Job Search"))]), World 1 []).
Proof.
  apply (get_unified_tags_returns_model_object cpython
           (fun _ _ => Ok (q "{'Jobs': 'Job Search'}")) first_seen
           [JObject [(lit "tags", JArray [JString (lit "Jobs");
                                          JString (lit "Hiring")])]] w0
           [JString (lit "Jobs"); JString (lit "Hiring")]
           (lit "Jobs,Hiring")
           (q "{'Jobs': 'Job Search'}") (q "{'Jobs': 'Job Search'}")
           (JObject [(lit "Jobs", JString (lit "Job Search"))]));
    vm_compute; reflexivity.
Defined.

(** ** Sets of tags *)

Lemma json_eqb_str (x y : json) :
  is_str x = true -> (json_eqb x y = true <-> x = y).
Proof.
  destruct x; try discriminate. intros _.
  destruct y; simpl; try (split; [discriminate|intros H; discriminate H]).
  rewrite str_eqb_eq. split; congruence.
Qed.

Lemma first_seen_in (xs : list json) (x : json) :
  forallb is_str xs = true -> (In x (first_seen xs) <-> In x xs).
Proof.
  induction xs as [|a xs IH]; simpl; [tauto|].
  intros H. apply andb_true_iff in H as [Ha Hxs].
  rewrite filter_In, (IH Hxs). split.
  - intros [H|[H _]]; auto.
  - intros [H|H]; [now left|].
    destruct (json_eqb a x) eqn:E.
    + left. now apply (json_eqb_str a x Ha).
    + right. split; [assumption|reflexivity].
Qed.

Lemma first_seen_nodup (xs : list json) :
  forallb is_str xs = true -> NoDup (first_seen xs).
Proof.
  induction xs as [|a xs IH]; simpl; [constructor|].
  intros H. apply andb_true_iff in H as [Ha Hxs].
  constructor.
  - rewrite filter_In. intros [_ H].
    assert (E : json_eqb a a = true) by now apply json_eqb_str.
    rewrite E in H. discriminate.
  - apply NoDup_filter. now apply IH.
Qed.

(** The example order is an iteration order. *)
Lemma first_seen_set_order : set_order first_seen.
Proof.
  intros xs H. split; [now apply first_seen_nodup|].
  intros x. now apply first_seen_in.
Qed.

(** A set all of whose insertions are one string iterates as that string. *)
Lemma set_iter_single (set_iter : list json -> list json) (a : json) (xs : list json) :
  set_order set_iter -> is_str a = true -> xs <> [] ->
  (forall x, In x xs -> x = a) ->
  set_iter xs = [a].
Proof.
  intros Hset Ha Hne Hall.
  assert (Hstr : forallb is_str xs = true).
  { apply forallb_forall. intros x Hx. now rewrite (Hall x Hx). }
  destruct (Hset xs Hstr) as [Hnd Hin].
  assert (Ha_in : In a (set_iter xs)).
  { apply Hin. destruct xs as [|x xs']; [contradiction|].
    left. apply Hall. now left. }
  assert (Hall' : forall x, In x (set_iter xs) -> x = a).
  { intros x Hx. apply Hall. now apply Hin. }
  destruct (set_iter xs) as [|y [|z l]].
  - contradiction.
  - f_equal. apply Hall'. now left.
  - exfalso. inversion Hnd as [|? ? Hnotin _]; subst.
    apply Hnotin. left.
    rewrite (Hall' y) by (now left). rewrite (Hall' z) by (right; now left).
    reflexivity.
Qed.

(** The comprehension of the second loop computes [tag_through] on every
    tag, provided tags and results can be hashed. *)
Lemma map_tags_through (mapping : dict) (tags : list json) :
  forallb hashable tags = true ->
  forallb hashable (map (tag_through mapping) tags) = true ->
  map_tags (JObject mapping) tags = Ok (map (tag_through mapping) tags).
Proof.
  induction tags as [|t tags IH]; [reflexivity|].
  cbn [map forallb map_tags]. intros Ht Hm.
  apply andb_true_iff in Ht as [Ht Hts].
  apply andb_true_iff in Hm as [Hm Hms].
  assert (E : py_get_any (JObject mapping) t t = Ok (tag_through mapping t)).
  { unfold py_get_any, tag_through.
    destruct t; try reflexivity; try discriminate.
    destruct (dict_lookup s mapping); reflexivity. }
  rewrite E, Hm, (IH Hts Hms). reflexivity.
Qed.

Lemma rewrite_tags_through
    (set_iter : list json -> list json) (mapping p : dict)
    (current : json) (tags : list json) :
  dict_lookup (lit "tags") p = Some current ->
  py_iter current = Ok tags ->
  forallb hashable tags = true ->
  forallb hashable (map (tag_through mapping) tags) = true ->
  rewrite_tags set_iter (JObject mapping) (JObject p) =
  Ok (JObject (dict_set p (lit "tags")
                 (JArray (set_iter (map (tag_through mapping) tags))))).
Proof.
  intros Hcur Hiter Ht Hm. unfold rewrite_tags, py_getitem.
  rewrite Hcur, Hiter, (map_tags_through mapping tags Ht Hm). reflexivity.
Qed.

Lemma nonempty_tag_str (t : json) : nonempty_tag t = true -> is_str t = true.
Proof. destruct t; try discriminate. reflexivity. Qed.

Lemma is_str_hashable (t : json) : is_str t = true -> hashable t = true.
Proof. destruct t; try discriminate; reflexivity. Qed.

Lemma forallb_impl {A} (f g : A -> bool) (xs : list A) :
  (forall x, f x = true -> g x = true) ->
  forallb f xs = true -> forallb g xs = true.
Proof.
  intros H Hf. apply forallb_forall. intros x Hx.
  apply H. rewrite forallb_forall in Hf. now apply Hf.
Qed.

Lemma dict_lookup_forallb (f : json -> bool) (d : dict) (k : str) (v : json) :
  forallb (fun kv => f (snd kv)) d = true ->
  dict_lookup k d = Some v -> f v = true.
Proof.
  induction d as [|[k0 v0] d IH]; simpl; [discriminate|].
  intros H. apply andb_true_iff in H as [H0 Hd].
  destruct (str_eqb k k0); [intros E; inversion E; subst; assumption|].
  now apply IH.
Qed.

Lemma tag_through_nonempty (mapping : dict) (t : json) :
  forallb (fun kv => nonempty_tag (snd kv)) mapping = true ->
  nonempty_tag t = true -> nonempty_tag (tag_through mapping t) = true.
Proof.
  intros Hm Ht. unfold tag_through. destruct t; try assumption.
  destruct (dict_lookup s mapping) eqn:E; [|assumption].
  eapply dict_lookup_forallb; eauto.
Qed.

(** ** C6 *)

(** C6. For every record and every unification mapping (with tags and
    rewritten tags that a set can hold), the second loop of the batch
    driver replaces the record's tags by the set of the tags rewritten with
    [tag_through]: [mapping[t]] when [t] is a key, [t] itself otherwise.
    On strings the set holds every rewritten tag, once.  In particular the
    record with tags Job Search and Hiring, under the mapping that sends
    both to Job Search, ends with the single tag Job Search, whatever the
    iteration order of sets. *)
Theorem rewrite_tags_maps_then_dedups
    (set_iter : list json -> list json) (mapping p : dict)
    (current : json) (tags : list json) :
  dict_lookup (lit "tags") p = Some current ->
  py_iter current = Ok tags ->
  forallb hashable tags = true ->
  forallb hashable (map (tag_through mapping) tags) = true ->
  rewrite_tags set_iter (JObject mapping) (JObject p) =
  Ok (JObject (dict_set p (lit "tags")
                 (JArray (set_iter (map (tag_through mapping) tags))))) /\
  (set_order set_iter ->
   forallb is_str (map (tag_through mapping) tags) = true ->
   NoDup (set_iter (map (tag_through mapping) tags)) /\
   forall x, In x (set_iter (map (tag_through mapping) tags)) <->
             exists t, In t tags /\ x = tag_through mapping t) /\
  (set_order set_iter ->
   rewrite_tags set_iter (JObject job_mapping)
     (job_record [JString (lit "Job Search"); JString (lit "Hiring")]) =
   Ok (job_record [JString (lit "Job Search")])).
Proof.
  intros Hcur Hiter Ht Hm. split; [|split].
  - now apply rewrite_tags_through with (current := current).
  - intros Hset Hstr. destruct (Hset _ Hstr) as [Hnd Hin].
    split; [assumption|]. intros x. rewrite Hin, in_map_iff.
    split; intros (t & H1 & H2); exists t; split; auto.
  - intros Hset. unfold job_record.
    rewrite (rewrite_tags_through set_iter job_mapping _
               (JArray [JString (lit "Job Search"); JString (lit "Hiring")])
               [JString (lit "Job Search"); JString (lit "Hiring")])
      by reflexivity.
    rewrite (set_iter_single set_iter (JString (lit "Job Search"))).
    + reflexivity.
    + assumption.
    + reflexivity.
    + discriminate.
    + intros x [<-|[<-|[]]]; reflexivity.
Qed.

Lemma rewrite_tags_maps_then_dedups_witness :
  rewrite_tags first_seen (JObject job_mapping)
    (JObject [(lit "tags", JArray [JString (lit "Hiring");
                                   JString (lit "AI");
                                   JString (lit "Job Search")])]) =
  Ok (JObject [(lit "tags", JArray [JString (lit "Job Search");
                                    JString (lit "AI")])]) /\
  rewrite_tags first_seen (JObject job_mapping)
    (job_record [JString (lit "Job Search"); JString (lit "Hiring")]) =
  Ok (job_record [JString (lit "Job Search")]).
Proof.
  destruct (rewrite_tags_maps_then_dedups first_seen job_mapping
              [(lit "tags", JArray [JString (lit "Hiring");
                                    JString (lit "AI");
                                    JString (lit "Job Search")])]
              (JArray [JString (lit "Hiring"); JString (lit "AI");
                       JString (lit "Job Search")])
              [JString (lit "Hiring"); JString (lit "AI");
               JString (lit "Job Search")]
              eq_refl eq_refl eq_refl eq_refl) as (H1 & _ & H3).
  split.
  - exact H1.
  - exact (H3 first_seen_set_order).
Defined.

(** ** C5 *)

(** C5, as stated, fails: the mapping is the model's, and a mapping that
    sends a tag to the empty string produces an empty tag. *)
Lemma rewrite_tags_empty_tag_counterexample :
  ~ (forall set_iter mapping p tags p' new,
        set_order set_iter ->
        dict_lookup (lit "tags") p = Some (JArray tags) ->
        forallb nonempty_tag tags = true ->
        rewrite_tags set_iter (JObject mapping) (JObject p) = Ok (JObject p') ->
        dict_lookup (lit "tags") p' = Some (JArray new) ->
        forallb nonempty_tag new = true).
Proof.
  intros H.
  specialize (H first_seen [(lit "Hiring", JString [])]
                [(lit "tags", JArray [JString (lit "Hiring")])]
                [JString (lit "Hiring")]
                [(lit "tags", JArray [JString []])]
                [JString []]
                first_seen_set_order eq_refl eq_refl eq_refl eq_refl).
  discriminate H.
Qed.

(** C5, amended. For every tag mapping whose values are non-empty strings
    and every record whose tags are all non-empty strings, rewriting the
    record's tags through the mapping with identity fallback for unmapped
    tags succeeds and never produces an empty tag. *)
Theorem rewrite_tags_no_empty_tag
    (set_iter : list json -> list json) (mapping p : dict) (tags : list json) :
  set_order set_iter ->
  dict_lookup (lit "tags") p = Some (JArray tags) ->
  forallb nonempty_tag tags = true ->
  forallb (fun kv => nonempty_tag (snd kv)) mapping = true ->
  exists new,
    rewrite_tags set_iter (JObject mapping) (JObject p) =
    Ok (JObject (dict_set p (lit "tags") (JArray new))) /\
    forallb nonempty_tag new = true.
Proof.
  intros Hset Hcur Htags Hmap.
  assert (Hne : forallb nonempty_tag (map (tag_through mapping) tags) = true).
  { apply forallb_forall. intros x Hx.
    apply in_map_iff in Hx as (t & <- & Ht).
    apply tag_through_nonempty; [assumption|].
    rewrite forallb_forall in Htags. now apply Htags. }
  assert (Hstr : forallb is_str (map (tag_through mapping) tags) = true).
  { revert Hne. apply forallb_impl. apply nonempty_tag_str. }
  exists (set_iter (map (tag_through mapping) tags)). split.
  - apply rewrite_tags_through with (current := JArray tags).
    + assumption.
    + reflexivity.
    + revert Htags. apply forallb_impl. intros x Hx.
      now apply is_str_hashable, nonempty_tag_str.
    + revert Hstr. apply forallb_impl. apply is_str_hashable.
  - destruct (Hset _ Hstr) as [_ Hin].
    apply forallb_forall. intros x Hx. apply Hin in Hx.
    rewrite forallb_forall in Hne. now apply Hne.
Qed.

Lemma rewrite_tags_no_empty_tag_witness :
  exists new,
    rewrite_tags first_seen (JObject job_mapping)
      (job_record [JString (lit "Job Search"); JString (lit "Hiring")]) =
    Ok (JObject (dict_set
                   [(lit "text", JString (lit "Looking for a new job! #JobSearch #Hiring"));
                    (lit "line_count", JInt 1);
                    (lit "language", JString (lit "English"));
                    (lit "tags", JArray [JString (lit "Job Search");
                                         JString (lit "Hiring")])]
                   (lit "tags") (JArray new))) /\
    forallb nonempty_tag new = true.
Proof.
  apply (rewrite_tags_no_empty_tag first_seen job_mapping _
           [JString (lit "Job Search"); JString (lit "Hiring")]
           first_seen_set_order); reflexivity.
Defined.

(** ** The first loop *)

Lemma enrich_post_eq (py : interp) (llm : nat -> str -> result str) (post : json) (w : world) :
  enrich_post py llm post w =
  match post with
  | JObject p =>
      match post_text p with
      | Ok text =>
          match extract_metadata py llm text w with
          | (Ok (JObject md), w') => (Ok (enriched p text md), w')
          | (Ok other, w') =>
              (Ok (JObject
                     (dict_set (dict_set p (lit "text") (JString text))
                        (lit "tags")
                        (match dict_lookup (lit "tags")
                                 (dict_set p (lit "text") (JString text)) with
                         | Some t => t
                         | None => JArray []
                         end))),
               World (calls w')
                     (stdout w' ++ [Warning_metadata_is_not_a_dictionary other]))
          | (Raise e, w') => (Raise e, w')
          end
      | Raise e => (Raise e, w)
      end
  | _ => (Raise AttributeError, w)
  end.
Proof.
  assert (Htail : forall p text,
    match extract_metadata py llm text w with
    | (Ok metadata, w') =>
        match
          (if is_dict metadata
           then lift (py_merge (JObject (dict_set p (lit "text") (JString text)))
                               metadata)
           else print (Warning_metadata_is_not_a_dictionary metadata) ;;;
                ret (JObject (dict_set p (lit "text") (JString text)))) w'
        with
        | (Ok post_with_metadata, w'') =>
            match lift (py_get post_with_metadata (lit "tags") (JArray [])) w'' with
            | (Ok tags, w3) =>
                lift (py_setitem post_with_metadata (lit "tags") tags) w3
            | (Raise e, w3) => (Raise e, w3)
            end
        | (Raise e, w'') => (Raise e, w'')
        end
    | (Raise e, w') => (Raise e, w')
    end =
    match extract_metadata py llm text w with
    | (Ok (JObject md), w') =>
        (Ok (JObject
               (dict_set (dict_merge (dict_set p (lit "text") (JString text)) md)
                  (lit "tags")
                  (match dict_lookup (lit "tags") md with
                   | Some t => t
                   | None =>
                       match dict_lookup (lit "tags") p with
                       | Some t => t
                       | None => JArray []
                       end
                   end))), w')
    | (Ok other, w') =>
        (Ok (JObject
               (dict_set (dict_set p (lit "text") (JString text))
                  (lit "tags")
                  (match dict_lookup (lit "tags")
                           (dict_set p (lit "text") (JString text)) with
                   | Some t => t
                   | None => JArray []
                   end))),
         World (calls w')
               (stdout w' ++ [Warning_metadata_is_not_a_dictionary other]))
    | (Raise e, w') => (Raise e, w')
    end).
  { intros p text.
    destruct (extract_metadata py llm text w) as [[v|e] w'] eqn:Em; [|reflexivity].
    apply extract_metadata_ok_dict in Em as (md & -> & Hnd).
    cbn [is_dict py_merge py_get py_setitem lift].
    unfold dict_merge at 1.
    rewrite (dict_lookup_fold_set md _ (lit "tags") Hnd).
    rewrite dict_lookup_set.
    change (str_eqb (lit "tags") (lit "text")) with false. cbv iota.
    destruct (dict_lookup (lit "tags") md); [reflexivity|].
    destruct (dict_lookup (lit "tags") p); reflexivity. }
  unfold enrich_post, bind, post_text.
  destruct post as [| | | | | |p]; try reflexivity.
  cbn [py_get lift].
  destruct (dict_lookup (lit "text") p) as [t|] eqn:Et.
  - destruct t as [| | | |s| |]; try reflexivity.
    cbn [py_clean_text py_setitem]. apply Htail.
  - cbn [py_clean_text py_setitem]. apply Htail.
Qed.

Lemma mapM_forall {A B} (f : A -> M B) (P : B -> Prop) :
  (forall x w y w', f x w = (Ok y, w') -> P y) ->
  forall xs w ys w', mapM f xs w = (Ok ys, w') -> Forall P ys.
Proof.
  intros Hf. induction xs as [|x xs IH]; intros w ys w' H.
  - inversion H; subst. constructor.
  - cbn [mapM] in H. unfold bind in H.
    destruct (f x w) as [[y|e] w1] eqn:Ef; [|discriminate].
    destruct (mapM f xs w1) as [[ys'|e] w2] eqn:Em; [|discriminate].
    inversion H; subst. constructor; eauto.
Qed.

Lemma mapM_total {A B} (f : A -> M B) (Q : A -> Prop) :
  (forall x w, Q x -> exists y w', f x w = (Ok y, w')) ->
  forall xs w, Forall Q xs ->
    exists ys w', mapM f xs w = (Ok ys, w') /\ List.length ys = List.length xs.
Proof.
  intros Hf. induction xs as [|x xs IH]; intros w HQ.
  - exists [], w. split; reflexivity.
  - inversion HQ as [|? ? Hx Hxs]; subst.
    destruct (Hf x w Hx) as (y & w1 & Ey).
    destruct (IH w1 Hxs) as (ys & w2 & Eys & Hlen).
    exists (y :: ys), w2. cbn [mapM]. unfold bind. rewrite Ey, Eys.
    split; [reflexivity|simpl; now rewrite Hlen].
Qed.

(** With a client that fails only with parsing exceptions and answers on
    which the decoder stops at no limit, [extract_metadata] returns. *)
Lemma extract_metadata_total (py : interp)
    (llm : nat -> str -> result str) (post : str) (w : world) :
  only_parsing_failures llm ->
  answers_within_limits py llm ->
  exists md w', extract_metadata py llm post w = (Ok (JObject md), w').
Proof.
  intros Hllm Hlim.
  destruct (llm (calls w) (post_prompt (clean_text post))) as [c|e] eqn:El.
  - rewrite (extract_metadata_completion _ _ _ _ _ El).
    destruct (extract_json_dict py (strip c) (World (S (calls w)) (stdout w)))
      as [(d & _ & [E|[-> E]])|(e & He & E)]; eauto.
    exfalso.
    destruct (re_search (strip c)) as [m|] eqn:Em.
    + destruct (json_loads_cases py m) as [[v Hv]|[Hr|(e' & He' & Hr)]].
      * rewrite (extract_json_parsed _ _ _ _ _ Em Hv) in E. discriminate.
      * rewrite (extract_json_unparsed _ _ _ _ Em Hr) in E. discriminate.
      * rewrite (Hlim _ _ _ _ _ El Em Hr) in He'. discriminate.
    + rewrite (extract_json_no_candidate _ _ _ Em) in E. discriminate.
  - rewrite (extract_metadata_failure _ _ _ _ _ El).
    rewrite (Hllm _ _ _ El). unfold fallback_metadata. eauto.
Qed.

Lemma extract_metadata_nodup (py : interp)
    (llm : nat -> str -> result str) (post : str) (w w' : world) (md : dict) :
  extract_metadata py llm post w = (Ok (JObject md), w') ->
  NoDup (dict_keys md).
Proof.
  intros E. apply extract_metadata_ok_dict in E as (d & Hd & Hnd).
  inversion Hd; subst. assumption.
Qed.

Lemma enrich_post_ok (py : interp)
    (llm : nat -> str -> result str) (post r : json) (w w' : world) :
  enrich_post py llm post w = (Ok r, w') ->
  exists p text md,
    post = JObject p /\ post_text p = Ok text /\
    extract_metadata py llm text w = (Ok (JObject md), w') /\
    r = enriched p text md.
Proof.
  rewrite enrich_post_eq.
  destruct post as [| | | | | |p]; try discriminate.
  destruct (post_text p) as [text|e] eqn:Et; [|discriminate].
  destruct (extract_metadata py llm text w) as [[v|e] w1] eqn:Em; [|discriminate].
  pose proof Em as Em'.
  apply extract_metadata_ok_dict in Em' as (md & -> & _).
  intros H. inversion H; subst.
  exists p, text, md. repeat split; auto.
Qed.

Lemma enriched_tags_field (p : dict) (text : str) (md : dict) :
  exists d, enriched p text md = JObject d /\
            dict_lookup (lit "tags") d = Some (enriched_tags p md).
Proof.
  eexists. split; [reflexivity|].
  rewrite dict_lookup_set. now rewrite str_eqb_refl.
Qed.

(** ** C8 *)

(** C8. When the extracted metadata (a dictionary, one entry per key) is
    merged into a post record, a field name present in both holds the
    metadata's value in the merged record, and a field of the record whose
    name is not a metadata key keeps its value.  So it is in the first loop
    of [process_posts]: the enriched record holds every field of the
    metadata, and every other field of the record (with its cleaned text)
    as it was. *)
Theorem merge_metadata_wins :
  (forall post metadata k,
      NoDup (dict_keys metadata) ->
      (forall v, dict_lookup k metadata = Some v ->
                 dict_lookup k (dict_merge post metadata) = Some v) /\
      (dict_lookup k metadata = None ->
       dict_lookup k (dict_merge post metadata) = dict_lookup k post)) /\
  (forall py llm post w r w',
      enrich_post py llm post w = (Ok r, w') ->
      exists p text md d,
        post = JObject p /\ post_text p = Ok text /\
        extract_metadata py llm text w = (Ok (JObject md), w') /\
        r = JObject d /\
        forall k,
          (forall v, dict_lookup k md = Some v -> dict_lookup k d = Some v) /\
          (forall v, dict_lookup k md = None ->
                     dict_lookup k (dict_set p (lit "text") (JString text)) = Some v ->
                     dict_lookup k d = Some v)).
Proof.
  assert (Hmerge : forall post metadata k,
             NoDup (dict_keys metadata) ->
             dict_lookup k (dict_merge post metadata) =
             match dict_lookup k metadata with
             | Some v => Some v
             | None => dict_lookup k post
             end).
  { intros post metadata k Hnd. unfold dict_merge.
    now apply dict_lookup_fold_set. }
  split.
  - intros post metadata k Hnd. rewrite (Hmerge post metadata k Hnd).
    split; [now intros v ->|now intros ->].
  - intros py llm post w r w' Hr.
    apply enrich_post_ok in Hr as (p & text & md & -> & Ht & Hm & ->).
    pose proof (extract_metadata_nodup _ _ _ _ _ _ Hm) as Hnd.
    eexists p, text, md, _. repeat (split; [first [reflexivity|eassumption]|]).
    intros k. rewrite dict_lookup_set.
    rewrite (Hmerge _ md k Hnd). unfold enriched_tags.
    destruct (str_eqb k (lit "tags")) eqn:Ek.
    + apply str_eqb_eq in Ek. subst k. split.
      * now intros v ->.
      * intros v -> Hv. rewrite dict_lookup_set in Hv.
        change (str_eqb (lit "tags") (lit "text")) with false in Hv.
        cbv iota in Hv. now rewrite Hv.
    + split; [now intros v ->|now intros v ->].
Qed.

Lemma merge_metadata_wins_witness :
  dict_lookup (lit "tags")
    (dict_merge [(lit "text", JString (lit "Hi")); (lit "tags", JArray [])]
                [(lit "line_count", JInt 1);
                 (lit "tags", JArray [JString (lit "AI")])]) =
  Some (JArray [JString (lit "AI")]) /\
  dict_lookup (lit "text")
    (dict_merge [(lit "text", JString (lit "Hi")); (lit "tags", JArray [])]
                [(lit "line_count", JInt 1);
                 (lit "tags", JArray [JString (lit "AI")])]) =
  Some (JString (lit "Hi")).
Proof.
  assert (Hnd : NoDup (dict_keys [(lit "line_count", JInt 1);
                                  (lit "tags", JArray [JString (lit "AI")])])).
  { repeat constructor; simpl; intuition discriminate. }
  destruct merge_metadata_wins as (Hmerge & _).
  split.
  - apply (proj1 (Hmerge
                    [(lit "text", JString (lit "Hi")); (lit "tags", JArray [])]
                    [(lit "line_count", JInt 1);
                     (lit "tags", JArray [JString (lit "AI")])]
                    (lit "tags") Hnd)).
    reflexivity.
  - apply (proj2 (Hmerge
                    [(lit "text", JString (lit "Hi")); (lit "tags", JArray [])]
                    [(lit "line_count", JInt 1);
                     (lit "tags", JArray [JString (lit "AI")])]
                    (lit "text") Hnd)).
    reflexivity.
Defined.

(** ** C9 *)

(** C9, as stated, fails: the [tags] field holds what the metadata
    supplied, and the model can supply a number. *)
Lemma enriched_tags_sequence_counterexample :
  ~ (forall py llm posts w enriched_posts w',
        enrich_posts py llm posts w = (Ok enriched_posts, w') ->
        Forall (fun r => exists d t,
                    r = JObject d /\
                    dict_lookup (lit "tags") d = Some t /\
                    is_sequence t = true) enriched_posts).
Proof.
  intros H.
  specialize (H cpython (fun _ _ => Ok (q "{'line_count': 1, 'tags': 7}"))
                (JArray [JObject [(lit "text", JString (lit "Hello"))]])
                w0 _ _ eq_refl).
  inversion H as [|r l (d & t & Hr & Ht & Hseq) _]; subst.
  inversion Hr; subst. vm_compute in Ht. inversion Ht; subst.
  discriminate Hseq.
Qed.

(** C9, amended. After the per-record enrichment phase of [process_posts]
    every record of the enriched collection is a mapping with a [tags]
    field, also when metadata extraction failed or the metadata had no
    [tags] key: the field holds the metadata's [tags] value if there is
    one, else the record's own, else the empty list; it is a sequence only
    if the value supplied is one.  The phase completes on every array of
    readable records when the client fails only with parsing exceptions and
    the decoder stops at no limit of the interpreter on its answers. *)
Theorem enriched_posts_have_tags
    (py : interp) (llm : nat -> str -> result str) :
  (forall posts w enriched_posts w',
      enrich_posts py llm posts w = (Ok enriched_posts, w') ->
      Forall has_tags_field enriched_posts) /\
  (forall post w r w',
      enrich_post py llm post w = (Ok r, w') ->
      exists p text md d,
        post = JObject p /\ post_text p = Ok text /\
        extract_metadata py llm text w = (Ok (JObject md), w') /\
        r = JObject d /\
        dict_lookup (lit "tags") d = Some (enriched_tags p md)) /\
  (forall items w,
      only_parsing_failures llm ->
      answers_within_limits py llm ->
      Forall readable_post items ->
      exists enriched_posts w',
        enrich_posts py llm (JArray items) w = (Ok enriched_posts, w') /\
        List.length enriched_posts = List.length items).
Proof.
  split; [|split].
  - intros posts w enriched_posts w' H.
    unfold enrich_posts, bind, lift in H.
    destruct (py_iter posts) as [items|e]; [|discriminate].
    revert H. apply mapM_forall.
    intros post w1 r w2 Hr.
    apply enrich_post_ok in Hr as (p & text & md & _ & _ & _ & ->).
    destruct (enriched_tags_field p text md) as (d & Hd & Ht).
    exists d, (enriched_tags p md). auto.
  - intros post w r w' Hr.
    apply enrich_post_ok in Hr as (p & text & md & -> & Ht & Hm & ->).
    destruct (enriched_tags_field p text md) as (d & Hd & Hd').
    exists p, text, md, d. auto.
  - intros items w Hllm Hlim Hitems.
    unfold enrich_posts, bind, lift. cbn [py_iter].
    apply mapM_total with (Q := readable_post); [|assumption].
    intros post w1 (p & text & -> & Ht).
    rewrite enrich_post_eq, Ht.
    destruct (extract_metadata_total py llm text w1 Hllm Hlim) as (md & w2 & ->).
    eauto.
Qed.

Lemma enriched_posts_have_tags_witness :
  Forall has_tags_field
    [JObject [(lit "text", JString (lit "Hello"));
              (lit "line_count", JInt 1);
              (lit "tags", JArray [])]] /\
  exists enriched_posts w',
    enrich_posts cpython (fun _ _ => Ok (q "{'line_count': 1}"))
      (JArray [JObject [(lit "text", JString (lit "Hello"))]]) w0 =
    (Ok enriched_posts, w') /\
    List.length enriched_posts = 1%nat.
Proof.
  destruct (enriched_posts_have_tags cpython
              (fun _ _ => Ok (q "{'line_count': 1}")))
    as (Hall & _ & Htotal).
  split.
  - apply (Hall (JArray [JObject [(lit "text", JString (lit "Hello"))]])
                w0 _ (World 1 [])).
    vm_compute. reflexivity.
  - apply (Htotal [JObject [(lit "text", JString (lit "Hello"))]] w0).
    + intros n prompt e H. discriminate H.
    + intros n prompt content m e H Hm Hr.
      inversion H; subst content. vm_compute in Hm. inversion Hm; subst m.
      vm_compute in Hr. discriminate Hr.
    + constructor; [|constructor].
      exists [(lit "text", JString (lit "Hello"))], (lit "Hello").
      split; reflexivity.
Defined.

(** ** End to end *)

(** The run of the specification's example: one record, a client that
    answers the extraction prompt with the metadata and the unification
    prompt with the mapping. *)
Example process_posts_job_search :
  process_posts cpython cpython
    (stub (Ok (q "{'line_count': 1, 'language': 'English', 'tags': ['Job Search', 'Hiring']}"))
          (Ok (q "{'Job Search': 'Job Search', 'Hiring': 'Job Search'}")))
    first_seen
    (q "[{'text': 'Looking for a new job! #JobSearch #Hiring'}]") w0 =
  (Ok [job_record [JString (lit "Job Search")]], World 2 []).
Proof. vm_compute. reflexivity. Qed.

(** * Further properties of the script *)

(** ** [clean_text] *)



(** ** The candidate of [extract_json] *)

(** X2. The candidate [extract_json] decodes is the text from the first
    opening brace to the last closing brace: the search finds [m] exactly
    when the text is a prefix without opening brace, then [m], which opens
    and closes with a brace, then a suffix without closing brace; and it
    finds nothing exactly when no opening brace has a closing brace after
    it. *)
Theorem re_search_first_to_last (text : str) :
  (forall m,
      re_search text = Some m <->
      exists pre body suf,
        text = pre ++ m ++ suf /\ m = LBRACE :: body ++ [RBRACE] /\
        ~ In LBRACE pre /\ ~ In RBRACE suf) /\
  (re_search text = None <-> ~ brace_pair text).
Proof.
  split.
  - intros m. split.
    + apply re_search_some.
    + intros (pre & body & suf & -> & -> & Hpre & Hsuf).
      now apply re_search_app.
  - rewrite re_search_none. unfold brace_pair. split.
    + intros H (pre & mid & suf & E). exact (H pre mid suf E).
    + intros H pre mid suf E. apply H. eauto.
Qed.

Lemma re_search_first_to_last_witness :
  re_search (lit "a {b} c} d") = Some (lit "{b} c}").
Proof.
  apply (proj1 (re_search_first_to_last (lit "a {b} c} d"))).
  exists (lit "a "), (lit "b} c"), (lit " d").
  repeat split; vm_compute; intuition discriminate.
Defined.

(** ** Stripping the response *)

Lemma isspace_not_brace (c : N) :
  isspace c = true -> (c =? LBRACE) = false /\ (c =? RBRACE) = false.
Proof.
  intros H. split.
  - destruct (c =? LBRACE) eqn:E; [|reflexivity].
    apply N.eqb_eq in E. subst c. vm_compute in H. discriminate.
  - destruct (c =? RBRACE) eqn:E; [|reflexivity].
    apply N.eqb_eq in E. subst c. vm_compute in H. discriminate.
Qed.

Lemma lstrip_split (s : str) :
  exists ws, s = ws ++ lstrip s /\ forallb isspace ws = true.
Proof.
  induction s as [|c s (ws & E & Hws)]; simpl.
  - exists []. split; reflexivity.
  - destruct (isspace c) eqn:Ec.
    + exists (c :: ws). simpl. rewrite Ec, Hws. split; [now f_equal|reflexivity].
    + exists []. split; reflexivity.
Qed.

Lemma rstrip_split (t : str) :
  exists ws, t = rev (lstrip (rev t)) ++ ws /\ forallb isspace ws = true.
Proof.
  destruct (lstrip_split (rev t)) as (ws & E & Hws).
  exists (rev ws). split.
  - rewrite <- rev_app_distr, <- E. now rewrite rev_involutive.
  - apply forallb_forall. intros x Hx. apply in_rev in Hx.
    rewrite forallb_forall in Hws. now apply Hws.
Qed.

Lemma spaces_no_brace (ws : str) :
  forallb isspace ws = true -> ~ In LBRACE ws /\ ~ In RBRACE ws.
Proof.
  intros H. rewrite forallb_forall in H.
  split; intros Hin; apply H in Hin; vm_compute in Hin; discriminate.
Qed.

Lemma re_search_no_open (s : str) : ~ In LBRACE s -> re_search s = None.
Proof.
  induction s as [|c s IH]; simpl; [reflexivity|].
  intros H. destruct (c =? LBRACE) eqn:E.
  - apply N.eqb_eq in E. exfalso. apply H. now left.
  - apply IH. intros Hin. apply H. now right.
Qed.

Lemma greedy_to_close_trailing (a ws : str) :
  ~ In RBRACE ws -> greedy_to_close (a ++ ws) = greedy_to_close a.
Proof.
  intros H. induction a as [|c a IH]; simpl.
  - now apply greedy_to_close_none.
  - now rewrite IH.
Qed.

Lemma re_search_trailing (a ws : str) :
  ~ In LBRACE ws -> ~ In RBRACE ws -> re_search (a ++ ws) = re_search a.
Proof.
  intros Ho Hc. induction a as [|c a IH]; simpl.
  - now apply re_search_no_open.
  - rewrite greedy_to_close_trailing by assumption. now rewrite IH.
Qed.

Lemma re_search_leading (ws s : str) :
  ~ In LBRACE ws -> re_search (ws ++ s) = re_search s.
Proof.
  induction ws as [|c ws IH]; simpl; [reflexivity|].
  intros H. destruct (c =? LBRACE) eqn:E.
  - apply N.eqb_eq in E. exfalso. apply H. now left.
  - apply IH. intros Hin. apply H. now right.
Qed.

Lemma re_search_strip (text : str) :
  re_search (strip text) = re_search text.
Proof.
  unfold strip.
  destruct (rstrip_split (lstrip text)) as (ws & E & Hws).
  destruct (lstrip_split text) as (ws' & E' & Hws').
  apply spaces_no_brace in Hws as [Ho Hc].
  apply spaces_no_brace in Hws' as [Ho' _].
  rewrite E' at 2. rewrite (re_search_leading ws' _ Ho').
  rewrite E at 2. now rewrite (re_search_trailing _ ws Ho Hc).
Qed.

(** A client whose answers are within the limits of the interpreter has
    answers on which the decoder stops at no limit. *)
Lemma short_answers_within_limits
    (py : interp) (llm : nat -> str -> result str) :
  (forall n prompt content,
      llm n prompt = Ok content ->
      (List.length content + error_room py <= recursion_room py)%nat /\
      (List.length content <= Nat.max 640 (int_max_str_digits py))%nat) ->
  answers_within_limits py llm.
Proof.
  intros H n prompt content m e Hl Hm Hr.
  rewrite re_search_strip in Hm.
  apply re_search_some in Hm as (pre & body & suf & Ht & _).
  destruct (H _ _ _ Hl) as [Hroom Hlen].
  rewrite Ht, !length_app in Hroom, Hlen.
  eapply json_loads_short; [| |exact Hr]; lia.
Qed.

(** X3. Stripping the response changes nothing for [extract_json]: white
    space holds no brace, so the candidate of the stripped text is the
    candidate of the text, and [extract_metadata] would return the same
    without its [strip]. *)
Theorem extract_json_strip (py : interp) (text : str) (w : world) :
  re_search (strip text) = re_search text /\
  extract_json py (strip text) w = extract_json py text w.
Proof.
  split; [apply re_search_strip|].
  unfold extract_json. now rewrite re_search_strip.
Qed.

(** X14. On a response within the limits of the interpreter (shorter than
    the room left for nesting, and no longer than the digit limit of [int])
    [extract_json] raises nothing: it returns a mapping with one entry per
    key, makes no call and prints at most its parsing error. *)
Theorem extract_json_within_limits (py : interp) (text : str) (w : world) :
  (List.length text + error_room py <= recursion_room py)%nat ->
  (List.length text <= Nat.max 640 (int_max_str_digits py))%nat ->
  exists d new,
    extract_json py text w =
    (Ok (JObject d), World (calls w) (stdout w ++ new)) /\
    NoDup (dict_keys d) /\
    (new = [] \/ new = [JSON_Parsing_Error]).
Proof.
  intros Hroom Hlen.
  assert (Hw : w = World (calls w) (stdout w ++ [])).
  { rewrite app_nil_r. now destruct w. }
  destruct (extract_json_dict py text w)
    as [(d & Hd & [E|[-> E]])|(e & He & E)].
  - exists d, []. rewrite <- Hw. auto.
  - exists [], [JSON_Parsing_Error]. auto.
  - exfalso. unfold extract_json in E.
    destruct (re_search text) as [m|] eqn:Em; [|discriminate E].
    apply re_search_some in Em as (pre & body & suf & Ht & _).
    assert (Hm : (List.length m <= List.length text)%nat).
    { rewrite Ht, !length_app. lia. }
    unfold try_except, lift in E.
    destruct (json_loads py m) as [v|e'] eqn:El; [discriminate E|].
    apply json_loads_short in El; [|lia|lia]. subst e'.
    discriminate E.
Qed.

Lemma extract_json_within_limits_witness :
  exists d new,
    extract_json cpython (q "Here: {'tags': ['AI'], 'n': [[1]]}") w0 =
    (Ok (JObject d), World 0 ([] ++ new)) /\
    NoDup (dict_keys d) /\
    (new = [] \/ new = [JSON_Parsing_Error]).
Proof.
  apply (extract_json_within_limits cpython
           (q "Here: {'tags': ['AI'], 'n': [[1]]}") w0);
    simpl; lia.
Defined.

(** ** [extract_metadata] and the client *)

(** X4. [extract_metadata] calls the client exactly once, with the prompt
    of the cleaned post, and depends on the client through that call
    alone; an exception of the client that is no parsing exception reaches
    the caller unchanged, with nothing printed. *)
Theorem extract_metadata_one_call (py : interp)
    (llm : nat -> str -> result str) (post : str) (w : world) :
  calls (snd (extract_metadata py llm post w)) = S (calls w) /\
  (forall llm',
      llm' (calls w) (post_prompt (clean_text post)) =
      llm (calls w) (post_prompt (clean_text post)) ->
      extract_metadata py llm' post w = extract_metadata py llm post w) /\
  (forall e,
      llm (calls w) (post_prompt (clean_text post)) = Raise e ->
      is_parsing_exn e = false ->
      extract_metadata py llm post w =
      (Raise e, World (S (calls w)) (stdout w))).
Proof.
  split; [|split].
  - destruct (extract_metadata_dict py llm post w) as (new & Hw & _).
    now rewrite Hw.
  - intros llm' H. unfold extract_metadata, try_except, bind, invoke.
    now rewrite H.
  - intros e He Hp. rewrite (extract_metadata_failure _ _ _ _ _ He).
    now rewrite Hp.
Qed.

Lemma extract_metadata_one_call_witness :
  extract_metadata cpython (fun _ _ => Raise (ClientError 503)) (lit "Hello") w0 =
  (Raise (ClientError 503), World 1 []).
Proof.
  apply (proj2 (proj2 (extract_metadata_one_call cpython
                         (fun _ _ => Raise (ClientError 503)) (lit "Hello") w0)));
    reflexivity.
Defined.

(** X5. When the client answers and the decoder rejects the candidate of
    the answer as malformed, or there is no candidate, [extract_metadata]
    returns the empty mapping, not the fallback: [extract_json] has
    absorbed the failure, printing its parsing error if there was a
    candidate.  When the decoder stops on the candidate at a limit of the
    interpreter, the exception is caught by no handler and reaches the
    caller of [extract_metadata]. *)
Theorem extract_metadata_undecodable (py : interp)
    (llm : nat -> str -> result str) (post content : str) (w : world) :
  llm (calls w) (post_prompt (clean_text post)) = Ok content ->
  ((forall m, re_search content = Some m ->
              json_loads py m = Raise JSONDecodeError) ->
   extract_metadata py llm post w =
   (Ok (JObject []),
    World (S (calls w))
          (stdout w ++ match re_search content with
                       | Some _ => [JSON_Parsing_Error]
                       | None => []
                       end))) /\
  (forall m e,
      re_search content = Some m -> json_loads py m = Raise e ->
      is_limit_exn e = true ->
      extract_metadata py llm post w =
      (Raise e, World (S (calls w)) (stdout w))).
Proof.
  intros Hllm.
  rewrite (extract_metadata_completion _ _ _ _ _ Hllm).
  assert (Es : extract_json py (strip content) (World (S (calls w)) (stdout w)) =
               extract_json py content (World (S (calls w)) (stdout w))).
  { unfold extract_json. now rewrite re_search_strip. }
  rewrite Es. split.
  - intros Hbad. destruct (re_search content) as [m|] eqn:E.
    + rewrite (extract_json_unparsed py content m _ E); [reflexivity|].
      now apply Hbad.
    + rewrite (extract_json_no_candidate py content _ E). simpl.
      now rewrite app_nil_r.
  - intros m e Hm Hr He.
    now rewrite (extract_json_limit py content m e _ Hm Hr He).
Qed.

Lemma extract_metadata_undecodable_witness :
  extract_metadata cpython (fun _ _ => Ok (lit "I found {two} tags."))
    (lit "Hello") w0 =
  (Ok (JObject []), World 1 [JSON_Parsing_Error]) /\
  extract_metadata cpython (fun _ _ => Ok nested_text) (lit "Hello") w0 =
  (Raise RecursionError, World 1 []).
Proof.
  split.
  - apply (proj1 (extract_metadata_undecodable cpython
                    (fun _ _ => Ok (lit "I found {two} tags.")) (lit "Hello")
                    (lit "I found {two} tags.") w0 eq_refl)).
    intros m Hm. vm_compute in Hm. inversion Hm; subst.
    vm_compute. reflexivity.
  - apply (proj2 (extract_metadata_undecodable cpython
                    (fun _ _ => Ok nested_text) (lit "Hello")
                    nested_text w0 eq_refl) nested_text RecursionError);
      vm_compute; reflexivity.
Defined.

(** ** [get_unified_tags] *)

Lemma get_unified_tags_on_failure (py : interp)
    (llm : nat -> str -> result str) (set_iter : list json -> list json)
    (posts : list json) (w : world) (tags : list json) (joined : str) :
  collect_tags posts [] = Ok tags ->
  py_join [COMMA] (set_iter tags) = Ok joined ->
  forall e,
    llm (calls w) (tags_prompt joined) = Raise e ->
    get_unified_tags py llm set_iter posts w =
    (Raise e, World (S (calls w)) (stdout w)).
Proof.
  intros Htags Hjoin e He.
  unfold get_unified_tags, bind, lift, invoke, try_except.
  now rewrite Htags, Hjoin, He.
Qed.

Lemma get_unified_tags_on_answer_dict (py : interp)
    (llm : nat -> str -> result str) (set_iter : list json -> list json)
    (posts : list json) (w : world) (tags : list json) (joined : str) :
  collect_tags posts [] = Ok tags ->
  py_join [COMMA] (set_iter tags) = Ok joined ->
  forall content,
    llm (calls w) (tags_prompt joined) = Ok content ->
    (exists d new,
        get_unified_tags py llm set_iter posts w =
        (Ok (JObject d), World (S (calls w)) (stdout w ++ new)) /\
        NoDup (dict_keys d) /\
        (new = [] \/ new = [JSON_Parsing_Error])) \/
    (exists e,
        is_limit_exn e = true /\
        get_unified_tags py llm set_iter posts w =
        (Raise e, World (S (calls w)) (stdout w))).
Proof.
  intros Htags Hjoin content Hc.
  rewrite (get_unified_tags_on_answer _ _ _ _ _ _ _ _ Htags Hjoin Hc).
  destruct (extract_json_dict py content (World (S (calls w)) (stdout w)))
    as [(d & Hd & [E|[-> E]])|(e & He & E)]; rewrite E.
  - left. exists d, []. rewrite app_nil_r. auto.
  - left. exists [], [JSON_Parsing_Error]. auto.
  - right. exists e. auto.
Qed.

(** X6. Once the tags of the collection are joined, [get_unified_tags]
    calls the client once.  When the client raises, its exception reaches
    the caller unchanged (the call is outside the [try]).  On every answer
    the function returns a mapping with one entry per key, printing at most
    the parsing error of [extract_json], or raises the [RecursionError] or
    [ValueError] that stopped the decoder at a limit of the interpreter; its
    own handler never runs. *)
Theorem get_unified_tags_after_join (py : interp)
    (llm : nat -> str -> result str) (set_iter : list json -> list json)
    (posts : list json) (w : world) (tags : list json) (joined : str) :
  collect_tags posts [] = Ok tags ->
  py_join [COMMA] (set_iter tags) = Ok joined ->
  (forall e,
      llm (calls w) (tags_prompt joined) = Raise e ->
      get_unified_tags py llm set_iter posts w =
      (Raise e, World (S (calls w)) (stdout w))) /\
  (forall content,
      llm (calls w) (tags_prompt joined) = Ok content ->
      (exists d new,
          get_unified_tags py llm set_iter posts w =
          (Ok (JObject d), World (S (calls w)) (stdout w ++ new)) /\
          NoDup (dict_keys d) /\
          (new = [] \/ new = [JSON_Parsing_Error])) \/
      (exists e,
          is_limit_exn e = true /\
          get_unified_tags py llm set_iter posts w =
          (Raise e, World (S (calls w)) (stdout w)))).
Proof.
  intros Htags Hjoin. split.
  - now apply get_unified_tags_on_failure with (tags := tags).
  - now apply get_unified_tags_on_answer_dict with (tags := tags).
Qed.

Lemma get_unified_tags_after_join_witness :
  get_unified_tags cpython
    (fun _ _ => Raise (OutputParserException "rate limited")) first_seen
    [JObject [(lit "tags", JArray [JString (lit "AI")])]] w0 =
  (Raise (OutputParserException "rate limited"), World 1 []) /\
  get_unified_tags cpython (fun _ _ => Ok nested_text) first_seen
    [JObject [(lit "tags", JArray [JString (lit "AI")])]] w0 =
  (Raise RecursionError, World 1 []).
Proof.
  split.
  - apply (proj1 (get_unified_tags_after_join cpython
                    (fun _ _ => Raise (OutputParserException "rate limited"))
                    first_seen
                    [JObject [(lit "tags", JArray [JString (lit "AI")])]] w0
                    [JString (lit "AI")] (lit "AI") eq_refl eq_refl)).
    reflexivity.
  - destruct (proj2 (get_unified_tags_after_join cpython
                       (fun _ _ => Ok nested_text) first_seen
                       [JObject [(lit "tags", JArray [JString (lit "AI")])]] w0
                       [JString (lit "AI")] (lit "AI") eq_refl eq_refl)
                    nested_text eq_refl)
      as [(d & new & E & _)|(e & _ & E)].
    + exfalso. vm_compute in E. discriminate E.
    + pose proof E as E'. vm_compute in E'. inversion E'; subst e. exact E.
Defined.

Lemma post_tags_error (post : json) (e : exn) :
  post_tags post = Raise e -> e = KeyError \/ e = TypeError.
Proof.
  unfold post_tags, py_getitem.
  destruct post as [| | | | | |p]; try (intros H; inversion H; auto; fail).
  destruct (dict_lookup (lit "tags") p) as [t|];
    [|intros H; inversion H; auto].
  destruct t; simpl; try (intros H; inversion H; auto; fail);
    match goal with
    | |- context [forallb hashable ?l] => destruct (forallb hashable l)
    end; intros H; inversion H; auto.
Qed.

Lemma collect_tags_step (post : json) (posts inserted : list json) :
  collect_tags (post :: posts) inserted =
  match post_tags post with
  | Ok xs => collect_tags posts (inserted ++ xs)
  | Raise e => Raise e
  end.
Proof.
  cbn [collect_tags]. unfold post_tags.
  destruct (py_getitem post (lit "tags")) as [t|e]; [|reflexivity].
  destruct (py_iter t) as [xs|e]; [|reflexivity].
  destruct (forallb hashable xs); reflexivity.
Qed.

Lemma collect_tags_cases (posts inserted : list json) :
  (Forall (fun post => exists xs, post_tags post = Ok xs) posts /\
   exists tags, collect_tags posts inserted = Ok tags) \/
  (~ Forall (fun post => exists xs, post_tags post = Ok xs) posts /\
   exists e, (e = KeyError \/ e = TypeError) /\
             collect_tags posts inserted = Raise e).
Proof.
  revert inserted. induction posts as [|post posts IH]; intros inserted.
  - left. split; [constructor|]. exists inserted. reflexivity.
  - rewrite collect_tags_step.
    destruct (post_tags post) as [xs|e] eqn:E.
    + destruct (IH (inserted ++ xs)) as [[Hall Hok]|[Hnot Herr]].
      * left. split; [constructor; eauto|assumption].
      * right. split; [|assumption].
        intros H. inversion H; subst. contradiction.
    + right. split.
      * intros H. inversion H as [|? ? (xs & Hxs) _]; subst. congruence.
      * exists e. split; [now apply post_tags_error with (post := post)|reflexivity].
Qed.

(** X7. [get_unified_tags] reads [post['tags']] of every record before it
    calls the client: either the tags of every record can be collected (a
    [tags] field that can be iterated and holds hashable elements), or the
    function raises [KeyError] or [TypeError] with no call made and nothing
    printed. *)
Theorem get_unified_tags_collects_first (py : interp)
    (llm : nat -> str -> result str) (set_iter : list json -> list json)
    (posts : list json) (w : world) :
  Forall (fun post => exists xs, post_tags post = Ok xs) posts \/
  exists e, (e = KeyError \/ e = TypeError) /\
            get_unified_tags py llm set_iter posts w = (Raise e, w).
Proof.
  destruct (collect_tags_cases posts []) as [[Hall _]|[_ (e & He & Hc)]].
  - now left.
  - right. exists e. split; [assumption|].
    unfold get_unified_tags, bind, lift. now rewrite Hc.
Qed.

(** ** The first loop, record by record *)

Lemma post_text_error (p : dict) (e : exn) :
  post_text p = Raise e -> e = AttributeError.
Proof.
  unfold post_text. destruct (dict_lookup (lit "text") p) as [t|];
    [|discriminate].
  destruct t; intros H; inversion H; reflexivity.
Qed.

Lemma enrich_post_calls (py : interp)
    (llm : nat -> str -> result str) (post r : json) (w w' : world) :
  enrich_post py llm post w = (Ok r, w') -> calls w' = S (calls w).
Proof.
  intros H.
  apply enrich_post_ok in H as (p & text & md & -> & Ht & Hm & _).
  destruct (extract_metadata_dict py llm text w) as (new & Hw & _).
  rewrite Hm in Hw. simpl in Hw. now rewrite Hw.
Qed.

(** X9. The first loop reads a record before it calls the client: a record
    that is no dictionary, or whose [text] is no string, raises
    [AttributeError] with no call made and nothing printed; and a record
    that is enriched was readable and cost exactly one call. *)
Theorem enrich_post_reads_first (py : interp)
    (llm : nat -> str -> result str) (post : json) (w : world) :
  (~ readable_post post ->
   enrich_post py llm post w = (Raise AttributeError, w)) /\
  (forall r w',
      enrich_post py llm post w = (Ok r, w') ->
      readable_post post /\ calls w' = S (calls w)).
Proof.
  split.
  - intros Hnot. rewrite enrich_post_eq.
    destruct post as [| | | | | |p]; try reflexivity.
    destruct (post_text p) as [text|e] eqn:E.
    + exfalso. apply Hnot. exists p, text. auto.
    + now rewrite (post_text_error p e E).
  - intros r w' H. split; [|now apply enrich_post_calls in H].
    apply enrich_post_ok in H as (p & text & md & -> & Ht & _).
    exists p, text. auto.
Qed.

Lemma enrich_post_reads_first_witness :
  enrich_post cpython (fun _ _ => Ok (lit "{}"))
    (JObject [(lit "text", JInt 7)]) w0 =
  (Raise AttributeError, w0).
Proof.
  apply (proj1 (enrich_post_reads_first cpython (fun _ _ => Ok (lit "{}"))
                  (JObject [(lit "text", JInt 7)]) w0)).
  intros (p & text & Hp & Ht). inversion Hp; subst. discriminate Ht.
Defined.

(** ** The second loop, record by record *)

Lemma rewrite_tags_ok
    (set_iter : list json -> list json) (unified_tags post r : json) :
  rewrite_tags set_iter unified_tags post = Ok r ->
  exists p ts,
    post = JObject p /\ has_key (lit "tags") p = true /\
    r = JObject (dict_set p (lit "tags") (JArray ts)).
Proof.
  unfold rewrite_tags, py_getitem, has_key.
  destruct post as [| | | | | |p]; try (simpl; discriminate).
  destruct (dict_lookup (lit "tags") p) as [t|] eqn:Et; [|discriminate].
  destruct (py_iter t) as [tags|e]; [|discriminate].
  destruct (map_tags unified_tags tags) as [new|e]; [|discriminate].
  simpl. intros H. inversion H; subst.
  exists p, (set_iter new). repeat split. now rewrite Et.
Qed.

(** X10. The second loop changes the [tags] field of a record and nothing
    else: the rewritten record has the same field names in the same order,
    a list under [tags], and every other field as it was. *)
Theorem rewrite_tags_frame
    (set_iter : list json -> list json) (unified_tags post r : json) :
  rewrite_tags set_iter unified_tags post = Ok r ->
  exists p d ts,
    post = JObject p /\ r = JObject d /\
    dict_lookup (lit "tags") d = Some (JArray ts) /\
    dict_keys d = dict_keys p /\
    forall k, k <> lit "tags" -> dict_lookup k d = dict_lookup k p.
Proof.
  intros H. apply rewrite_tags_ok in H as (p & ts & -> & Hk & ->).
  exists p, (dict_set p (lit "tags") (JArray ts)), ts.
  repeat split.
  - rewrite dict_lookup_set. now rewrite str_eqb_refl.
  - rewrite dict_keys_set. now rewrite Hk.
  - intros k Hne. rewrite dict_lookup_set.
    apply str_eqb_neq in Hne. now rewrite Hne.
Qed.

Lemma rewrite_tags_frame_witness :
  exists p d ts,
    job_record [JString (lit "Hiring")] = JObject p /\
    job_record [JString (lit "Job Search")] = JObject d /\
    dict_lookup (lit "tags") d = Some (JArray ts) /\
    dict_keys d = dict_keys p /\
    forall k, k <> lit "tags" -> dict_lookup k d = dict_lookup k p.
Proof.
  apply (rewrite_tags_frame first_seen (JObject job_mapping)
           (job_record [JString (lit "Hiring")])
           (job_record [JString (lit "Job Search")])).
  reflexivity.
Defined.

(** ** The merged record *)

Lemma has_key_set (d : dict) (k k' : str) (v : json) :
  has_key k (dict_set d k' v) = str_eqb k k' || has_key k d.
Proof.
  unfold has_key. rewrite dict_lookup_set.
  destruct (str_eqb k k'); reflexivity.
Qed.

(** X11. The merged record lists the fields of the post first, in their
    order, then the fields of the metadata the post does not have, in
    the metadata's order: this is the order in which the fields are
    written out. *)
Theorem dict_merge_keys (post metadata : dict) :
  NoDup (dict_keys metadata) ->
  dict_keys (dict_merge post metadata) =
  dict_keys post ++
  filter (fun k => negb (has_key k post)) (dict_keys metadata).
Proof.
  unfold dict_merge. revert post.
  induction metadata as [|[k v] md IH]; intros post Hnd; simpl.
  - now rewrite app_nil_r.
  - inversion Hnd as [|? ? Hnotin Hnd']; subst.
    rewrite (IH _ Hnd'). rewrite dict_keys_set.
    assert (Hf : filter (fun k0 => negb (has_key k0 (dict_set post k v)))
                        (dict_keys md) =
                 filter (fun k0 => negb (has_key k0 post)) (dict_keys md)).
    { apply filter_ext_in. intros k0 Hk0. rewrite has_key_set.
      assert (E : str_eqb k0 k = false).
      { apply str_eqb_neq. intros ->. contradiction. }
      now rewrite E. }
    rewrite Hf. destruct (has_key k post); simpl.
    + reflexivity.
    + now rewrite <- app_assoc.
Qed.

Lemma dict_merge_keys_witness :
  dict_keys
    (dict_merge [(lit "text", JString (lit "Hi")); (lit "tags", JArray [])]
                [(lit "line_count", JInt 1);
                 (lit "tags", JArray [JString (lit "AI")]);
                 (lit "language", JString (lit "English"))]) =
  [lit "text"; lit "tags"; lit "line_count"; lit "language"].
Proof.
  apply (dict_merge_keys
           [(lit "text", JString (lit "Hi")); (lit "tags", JArray [])]
           [(lit "line_count", JInt 1);
            (lit "tags", JArray [JString (lit "AI")]);
            (lit "language", JString (lit "English"))]).
  repeat constructor; simpl; intuition discriminate.
Defined.

(** ** The whole run *)

Lemma mapM_forall2 {A B} (f : A -> M B) (R : A -> B -> Prop) :
  (forall x w y w', f x w = (Ok y, w') -> R x y) ->
  forall xs w ys w', mapM f xs w = (Ok ys, w') -> Forall2 R xs ys.
Proof.
  intros Hf. induction xs as [|x xs IH]; intros w ys w' H.
  - inversion H; subst. constructor.
  - cbn [mapM] in H. unfold bind in H.
    destruct (f x w) as [[y|e] w1] eqn:Ef; [|discriminate].
    destruct (mapM f xs w1) as [[ys'|e] w2] eqn:Em; [|discriminate].
    inversion H; subst. constructor; eauto.
Qed.

Lemma mapM_calls {A B} (f : A -> M B) :
  (forall x w y w', f x w = (Ok y, w') -> calls w' = S (calls w)) ->
  forall xs w ys w',
    mapM f xs w = (Ok ys, w') ->
    calls w' = (calls w + List.length xs)%nat.
Proof.
  intros Hf. induction xs as [|x xs IH]; intros w ys w' H.
  - inversion H; subst. simpl. lia.
  - cbn [mapM] in H. unfold bind in H.
    destruct (f x w) as [[y|e] w1] eqn:Ef; [|discriminate].
    destruct (mapM f xs w1) as [[ys'|e] w2] eqn:Em; [|discriminate].
    inversion H; subst.
    apply Hf in Ef. apply IH in Em. simpl. lia.
Qed.

Lemma mapM_lift_world {A B} (g : A -> result B) (xs : list A)
    (w w' : world) (ys : list B) :
  mapM (fun x => lift (g x)) xs w = (Ok ys, w') -> w' = w.
Proof.
  revert w ys w'. induction xs as [|x xs IH]; intros w ys w' H.
  - now inversion H.
  - cbn [mapM] in H. unfold bind, lift in H.
    destruct (g x) as [y|e]; [|discriminate].
    destruct (mapM (fun x0 => (fun w0 => (g x0, w0))) xs w)
      as [[ys'|e] w2] eqn:Em; [|discriminate].
    apply IH in Em. inversion H; subst. reflexivity.
Qed.

Lemma Forall2_compose {A B C} (R : A -> B -> Prop) (S' : B -> C -> Prop)
    (T : A -> C -> Prop) :
  (forall a b c, R a b -> S' b c -> T a c) ->
  forall xs ys zs, Forall2 R xs ys -> Forall2 S' ys zs -> Forall2 T xs zs.
Proof.
  intros H xs ys zs HR. revert zs.
  induction HR as [|a b xs ys Hab _ IH]; intros zs HS; inversion HS; subst;
    constructor; eauto.
Qed.

Lemma has_key_merge (a b : dict) (k : str) :
  has_key k a = true -> has_key k (dict_merge a b) = true.
Proof.
  unfold dict_merge. revert a.
  induction b as [|[k0 v0] b IH]; intros a H; simpl; [assumption|].
  apply IH. rewrite has_key_set, H. apply orb_true_r.
Qed.

Lemma get_unified_tags_ok_calls (py : interp)
    (llm : nat -> str -> result str) (set_iter : list json -> list json)
    (posts : list json) (w w' : world) (u : json) :
  get_unified_tags py llm set_iter posts w = (Ok u, w') ->
  calls w' = S (calls w).
Proof.
  intros H.
  destruct (collect_tags posts []) as [tags|e] eqn:Et.
  2:{ unfold get_unified_tags, bind, lift in H. rewrite Et in H. discriminate. }
  destruct (py_join [COMMA] (set_iter tags)) as [joined|e] eqn:Ej.
  2:{ unfold get_unified_tags, bind, lift in H. rewrite Et, Ej in H.
      discriminate. }
  pose proof (get_unified_tags_on_failure py llm set_iter posts w tags joined
                Et Ej) as Hr.
  pose proof (get_unified_tags_on_answer_dict py llm set_iter posts w tags
                joined Et Ej) as Ha.
  destruct (llm (calls w) (tags_prompt joined)) as [c|e] eqn:El.
  - destruct (Ha c eq_refl) as [(d & new & E & _)|(e & _ & E)];
      rewrite E in H; [|discriminate].
    inversion H; subst. reflexivity.
  - rewrite (Hr e eq_refl) in H. discriminate.
Qed.

(** X12. A run of [process_posts] that succeeds decoded the raw text to
    something iterable, made one call per record and one more for the
    unification, and returns one record per input record, in order: each a
    mapping that has every field name of its input record and a list under
    [tags]. *)
Theorem process_posts_shape (py_load : interp) (py : interp)
    (llm : nat -> str -> result str) (set_iter : list json -> list json)
    (raw : str) (w w' : world) (out : list json) :
  process_posts py_load py llm set_iter raw w = (Ok out, w') ->
  exists posts items,
    json_loads py_load raw = Ok posts /\ py_iter posts = Ok items /\
    calls w' = (calls w + List.length items + 1)%nat /\
    Forall2 (fun post r =>
               exists p d ts,
                 post = JObject p /\ r = JObject d /\
                 dict_lookup (lit "tags") d = Some (JArray ts) /\
                 keeps_fields p d) items out.
Proof.
  intros H. unfold process_posts, bind, lift in H.
  destruct (json_loads py_load raw) as [posts|e] eqn:Eraw; [|discriminate].
  destruct (enrich_posts py llm posts w) as [[enriched_posts|e] w1] eqn:Een;
    [|discriminate].
  destruct (get_unified_tags py llm set_iter enriched_posts w1)
    as [[unified_tags|e] w2] eqn:Eun; [|discriminate].
  unfold enrich_posts, bind, lift in Een.
  destruct (py_iter posts) as [items|e] eqn:Eit; [|discriminate].
  exists posts, items. split; [reflexivity|]. split; [exact Eit|].
  pose proof (mapM_lift_world (rewrite_tags set_iter unified_tags)
                _ _ _ _ H) as Hw. subst w'.
  split.
  - apply get_unified_tags_ok_calls in Eun.
    apply (mapM_calls (enrich_post py llm)) in Een.
    + lia.
    + intros x wa y wb Hx.
      now apply (enrich_post_calls py llm x y wa wb).
  - eapply Forall2_compose;
      [|eapply (mapM_forall2 (enrich_post py llm)
                  (fun post r => exists p text md,
                       post = JObject p /\ r = enriched p text md));
        [|exact Een]
       |eapply (mapM_forall2
                  (fun post => lift (rewrite_tags set_iter unified_tags post))
                  (fun post r => rewrite_tags set_iter unified_tags post = Ok r));
        [|exact H]].
    + intros a b c (p & text & md & -> & ->) Hc.
      apply rewrite_tags_ok in Hc as (p1 & ts & Hp1 & _ & ->).
      unfold enriched in Hp1. inversion Hp1; subst p1.
      eexists p, _, ts. repeat split.
      * rewrite dict_lookup_set. now rewrite str_eqb_refl.
      * intros k Hk. rewrite !has_key_set.
        rewrite (has_key_merge _ md k).
        -- rewrite !orb_true_r. reflexivity.
        -- rewrite has_key_set, Hk. apply orb_true_r.
    + intros x wa y wb Hx.
      apply enrich_post_ok in Hx as (p & text & md & -> & _ & _ & ->). eauto.
    + intros x wa y wb Hx. unfold lift in Hx. now inversion Hx.
Qed.

Lemma process_posts_shape_witness :
  exists posts items,
    json_loads cpython (q "[{'id': 7, 'text': 'We are hiring!'}]") = Ok posts /\
    py_iter posts = Ok items /\
    calls (World 2 []) = (calls w0 + List.length items + 1)%nat /\
    Forall2 (fun post r =>
               exists p d ts,
                 post = JObject p /\ r = JObject d /\
                 dict_lookup (lit "tags") d = Some (JArray ts) /\
                 keeps_fields p d) items
      [JObject [(lit "id", JInt 7);
                (lit "text", JString (lit "We are hiring!"));
                (lit "tags", JArray [JString (lit "Jobs")])]].
Proof.
  apply (process_posts_shape cpython cpython
           (stub (Ok (q "{'tags': ['Hiring']}")) (Ok (q "{'Hiring': 'Jobs'}")))
           first_seen (q "[{'id': 7, 'text': 'We are hiring!'}]") w0).
  vm_compute. reflexivity.
Defined.

(** X13. When the decoder raises on the raw text, [process_posts] raises
    the same exception: [JSONDecodeError] for a text that is no JSON, or
    the [RecursionError] or [ValueError] of a limit of the interpreter.  A
    raw text that decodes to a value that cannot be iterated makes it raise
    [TypeError].  In each case no call is made and nothing is printed. *)
Theorem process_posts_bad_raw (py_load : interp) (py : interp)
    (llm : nat -> str -> result str) (set_iter : list json -> list json)
    (raw : str) (w : world) :
  ((forall posts, json_loads py_load raw <> Ok posts) ->
   exists e,
     json_loads py_load raw = Raise e /\
     (e = JSONDecodeError \/ is_limit_exn e = true) /\
     process_posts py_load py llm set_iter raw w = (Raise e, w)) /\
  (forall posts,
      json_loads py_load raw = Ok posts ->
      (forall items, py_iter posts <> Ok items) ->
      process_posts py_load py llm set_iter raw w = (Raise TypeError, w)).
Proof.
  split.
  - intros H. unfold process_posts, bind, lift.
    destruct (json_loads_cases py_load raw) as [[v Hv]|[Hr|(e & He & Hr)]].
    + exfalso. exact (H v Hv).
    + exists JSONDecodeError. rewrite Hr. auto.
    + exists e. rewrite Hr. auto.
  - intros posts Hp Hit. unfold process_posts, enrich_posts, bind, lift.
    rewrite Hp.
    destruct posts; simpl; try reflexivity; exfalso; eapply Hit; reflexivity.
Qed.

Lemma process_posts_bad_raw_witness :
  process_posts cpython cpython (fun _ _ => Ok (lit "{}")) first_seen
    (lit "text,likes") w0 = (Raise JSONDecodeError, w0) /\
  process_posts cpython cpython (fun _ _ => Ok (lit "{}")) first_seen
    (repeat LBRACKET 3000) w0 = (Raise RecursionError, w0) /\
  process_posts cpython cpython (fun _ _ => Ok (lit "{}")) first_seen
    (lit "42") w0 = (Raise TypeError, w0).
Proof.
  split; [|split].
  - destruct (proj1 (process_posts_bad_raw cpython cpython
                       (fun _ _ => Ok (lit "{}")) first_seen
                       (lit "text,likes") w0)) as (e & Hl & _ & Hp).
    + intros posts. vm_compute. discriminate.
    + vm_compute in Hl. inversion Hl; subst e. exact Hp.
  - destruct (proj1 (process_posts_bad_raw cpython cpython
                       (fun _ _ => Ok (lit "{}")) first_seen
                       (repeat LBRACKET 3000) w0)) as (e & Hl & _ & Hp).
    + intros posts. vm_compute. discriminate.
    + vm_compute in Hl. inversion Hl; subst e. exact Hp.
  - apply (proj2 (process_posts_bad_raw cpython cpython
                    (fun _ _ => Ok (lit "{}")) first_seen
                    (lit "42") w0) (JInt 42)).
    + vm_compute. reflexivity.
    + intros items. discriminate.
Defined.

(** ** The tag list of the unification prompt *)

Lemma collect_tags_members (posts inserted tags : list json) :
  collect_tags posts inserted = Ok tags ->
  forall x,
    In x tags <->
    In x inserted \/
    exists post xs, In post posts /\ post_tags post = Ok xs /\ In x xs.
Proof.
  revert inserted. induction posts as [|post posts IH]; intros inserted H x.
  - inversion H; subst. split; [auto|].
    intros [Hin|(post & xs & [] & _)]. assumption.
  - rewrite collect_tags_step in H.
    destruct (post_tags post) as [xs|e] eqn:E; [|discriminate].
    rewrite (IH _ H x), in_app_iff. split.
    + intros [[Hin|Hin]|(post' & xs' & Hp & Hx & Hin)].
      * now left.
      * right. exists post, xs. repeat split; auto. now left.
      * right. exists post', xs'. repeat split; auto. now right.
    + intros [Hin|(post' & xs' & [<-|Hp] & Hx & Hin)].
      * left. now left.
      * left. right. congruence.
      * right. exists post', xs'. auto.
Qed.

Lemma strings_of_strings (xs : list json) :
  forallb is_str xs = true ->
  exists ss, strings_of xs = Ok ss /\ xs = map JString ss.
Proof.
  induction xs as [|x xs IH]; simpl.
  - exists []. split; reflexivity.
  - intros H. apply andb_true_iff in H as [Hx Hxs].
    destruct x; try discriminate.
    destruct (IH Hxs) as (ss & -> & ->).
    exists (s :: ss). split; reflexivity.
Qed.

(** X8. When every tag collected from the records is a string, the list
    [get_unified_tags] puts into its prompt is the comma-joined list of
    the distinct tags of the records: each tag of a record is named, and
    none twice. *)
Theorem unique_tags_list_names_tags
    (set_iter : list json -> list json) (posts tags : list json) :
  set_order set_iter ->
  collect_tags posts [] = Ok tags ->
  forallb is_str tags = true ->
  exists names,
    py_join [COMMA] (set_iter tags) = Ok (join [COMMA] names) /\
    NoDup names /\
    forall s,
      In s names <->
      exists post xs,
        In post posts /\ post_tags post = Ok xs /\ In (JString s) xs.
Proof.
  intros Hset Htags Hstr.
  destruct (Hset tags Hstr) as [Hnd Hin].
  assert (Hstr' : forallb is_str (set_iter tags) = true).
  { apply forallb_forall. intros x Hx. apply Hin in Hx.
    rewrite forallb_forall in Hstr. now apply Hstr. }
  destruct (strings_of_strings _ Hstr') as (names & Hs & Hmap).
  exists names. split; [|split].
  - unfold py_join. now rewrite Hs.
  - rewrite Hmap in Hnd. now apply NoDup_map_inv in Hnd.
  - intros s.
    assert (E : In s names <-> In (JString s) (set_iter tags)).
    { rewrite Hmap, in_map_iff. split.
      - intros H. exists s. auto.
      - intros (s' & Heq & H). inversion Heq; subst. assumption. }
    rewrite E, Hin, (collect_tags_members posts [] tags Htags (JString s)).
    simpl. tauto.
Qed.

Lemma unique_tags_list_names_tags_witness :
  exists names,
    py_join [COMMA]
      (first_seen [JString (lit "AI"); JString (lit "Jobs"); JString (lit "AI")]) =
    Ok (join [COMMA] names) /\
    NoDup names /\
    forall s,
      In s names <->
      exists post xs,
        In post [JObject [(lit "tags", JArray [JString (lit "AI");
                                               JString (lit "Jobs")])];
                 JObject [(lit "tags", JArray [JString (lit "AI")])]] /\
        post_tags post = Ok xs /\ In (JString s) xs.
Proof.
  apply (unique_tags_list_names_tags first_seen
           [JObject [(lit "tags", JArray [JString (lit "AI");
                                          JString (lit "Jobs")])];
            JObject [(lit "tags", JArray [JString (lit "AI")])]]
           [JString (lit "AI"); JString (lit "Jobs"); JString (lit "AI")]
           first_seen_set_order); reflexivity.
Defined.
